(** * DINO self-distillation on ECG signals: a model of [experiments/DINO_signal.py]

    The first part models the source: the truncated-normal initialiser, the
    projection head, the multi-crop wrapper, the distillation loss with its
    centre, and the training loop of [run].  The second part states and proves
    the properties, component by component.

    Python floats and tensor entries are read as real numbers ([R]); integer
    indices, counts and shapes are [nat] (or [Z] where the source accepts a
    negative value).  Code that can raise returns [option]. *)

From Stdlib Require Import Reals Lra Lia List Arith ZArith Bool ClassicalEpsilon.
Import ListNotations.

Local Open Scope R_scope.

(** ** Numerical primitives used by the source

    [math.erf], [torch.erfinv], [math.sqrt], [exp] and [log] are library
    functions; they are given their mathematical meaning. *)

Module Numeric.

(** The integrand of the error function. *)
Definition gauss (t : R) : R := exp (- (t * t)).

Lemma gauss_continuity : continuity gauss.
Proof.
  unfold gauss.
  change (continuity (comp exp (fun t => - (t * t)))).
  apply continuity_comp.
  - apply continuity_opp. apply continuity_mult; apply derivable_continuous, derivable_id.
  - apply derivable_continuous, derivable_exp.
Qed.

Lemma gauss_integrable (a b : R) : Riemann_integrable gauss a b.
Proof.
  destruct (Rle_dec a b) as [Hab | Hab].
  - apply continuity_implies_RiemannInt; [exact Hab | intros; apply gauss_continuity].
  - apply RiemannInt_P1.
    apply continuity_implies_RiemannInt; [lra | intros; apply gauss_continuity].
Qed.

(** [math.erf]: erf x = 2/sqrt(pi) * integral of exp(-t^2) for t from 0 to x. *)
Definition erf (x : R) : R := 2 / sqrt PI * RiemannInt (gauss_integrable 0 x).

(** [torch.erfinv]: the inverse of [erf] on its range (-1, 1).  Outside that
    range the float result is an infinity or NaN; here it is some real. *)
Definition erfinv (y : R) : R := epsilon (inhabits 0) (fun x => erf x = y).

(** L2 norm of a vector. *)
Definition sumsq (v : list R) : R := fold_right (fun x acc => x * x + acc) 0 v.
Definition norm2 (v : list R) : R := sqrt (sumsq v).

End Numeric.

(** ** Truncated-normal initialiser ([_no_grad_trunc_normal_], [trunc_normal_]) *)

Module TruncNormal.
Import Numeric.

(** The nested helper [norm_cdf]: the standard normal distribution function. *)
Definition norm_cdf (x : R) : R := (1 + erf (x / sqrt 2)) / 2.

(** The test guarding [warnings.warn]:
    [(mean < a - 2 * std) or (mean > b + 2 * std)]. *)
Definition warn_needed (mean std a b : R) : bool :=
  if Rlt_dec mean (a - 2 * std) then true
  else if Rlt_dec (b + 2 * std) mean then true
  else false.

(** [tensor.uniform_(lo, hi)]: every entry becomes [lo + r * (hi - lo)] for a
    unit draw [r] of the generator, one draw per entry. *)
Definition uniform_ (rs : list R) (lo hi : R) : list R :=
  map (fun r => lo + r * (hi - lo)) rs.

(** [tensor.clamp_(min=a, max=b)] on one entry. *)
Definition clamp_ (a b x : R) : R := Rmin (Rmax x a) b.

(** The four in-place steps after the uniform fill, on one entry. *)
Definition transform (mean std a b : R) (t : R) : R :=
  clamp_ a b (erfinv t * (std * sqrt 2) + mean).

(** What a call leaves behind: whether the warning was issued, and the filled
    tensor, or [None] when the call raised. *)
Definition trunc_result : Type := bool * option (list R).

(** [_no_grad_trunc_normal_(tensor, mean, std, a, b)].  The tensor is given by
    the generator's unit draws for its entries (the old contents are
    overwritten).  Dividing by a zero [std] raises [ZeroDivisionError];
    [uniform_] rejects a lower end above the upper end.  The model is for
    cut-offs in order, a <= b: for b < a the exact error function always puts
    the two ends in the wrong order, while in floating point they coincide
    where [erf] is saturated and the call then returns. *)
Definition _no_grad_trunc_normal_ (rs : list R) (mean std a b : R) : trunc_result :=
  let warned := warn_needed mean std a b in
  if Req_dec_T std 0 then (warned, None)
  else
    let l := norm_cdf ((a - mean) / std) in
    let u := norm_cdf ((b - mean) / std) in
    if Rlt_dec (2 * u - 1) (2 * l - 1) then (warned, None)
    else (warned,
          Some (map (transform mean std a b) (uniform_ rs (2 * l - 1) (2 * u - 1)))).

(** [trunc_normal_(tensor, mean=0., std=1., a=-2., b=2.)]; [None] stands for an
    argument left at its default. *)
Definition trunc_normal_ (rs : list R) (mean std a b : option R) : trunc_result :=
  _no_grad_trunc_normal_ rs
    (match mean with Some m => m | None => 0 end)
    (match std with Some s => s | None => 1 end)
    (match a with Some x => x | None => -2 end)
    (match b with Some x => x | None => 2 end).

End TruncNormal.

(** ** Projection head ([DINOHead]) *)

Module Head.
Import Numeric.

(** The kinds of sub-module the head is built from, by shape. *)
Inductive layer : Type :=
| Linear (in_features out_features : nat)
| BatchNorm1d (num_features : nat)
| GELU.

(** [self.mlp] is either one [nn.Linear] or an [nn.Sequential]. *)
Inductive mlp_arch : Type :=
| Single (l : layer)
| Sequential (layers : list layer).

(** What [__init__] leaves in the object. *)
Record DINOHead : Type := mkDINOHead {
  mlp : mlp_arch;
  last_layer : layer;
  weight_g : list R;
  weight_g_requires_grad : bool
}.

(** One pass of the [for _ in range(nlayers - 2)] loop. *)
Definition hidden_block (use_bn : bool) (hidden_dim : nat) : list layer :=
  [Linear hidden_dim hidden_dim]
    ++ (if use_bn then [BatchNorm1d hidden_dim] else [])
    ++ [GELU].

(** The [mlp] built by [DINOHead.__init__]. *)
Definition build_mlp (in_dim : nat) (use_bn : bool) (nlayers : Z)
    (hidden_dim bottleneck_dim : nat) : mlp_arch :=
  let nlayers := Z.max nlayers 1 in
  if (nlayers =? 1)%Z then Single (Linear in_dim bottleneck_dim)
  else
    Sequential
      ([Linear in_dim hidden_dim]
         ++ (if use_bn then [BatchNorm1d hidden_dim] else [])
         ++ [GELU]
         ++ concat (repeat (hidden_block use_bn hidden_dim) (Z.to_nat (nlayers - 2)))
         ++ [Linear hidden_dim bottleneck_dim]).

(** [DINOHead.__init__(in_dim, out_dim, use_bn, norm_last_layer, nlayers,
    hidden_dim, bottleneck_dim)]. *)
Definition DINOHead_init (in_dim out_dim : nat) (use_bn norm_last_layer : bool)
    (nlayers : Z) (hidden_dim bottleneck_dim : nat) : DINOHead :=
  {| mlp := build_mlp in_dim use_bn nlayers hidden_dim bottleneck_dim;
     last_layer := Linear bottleneck_dim out_dim;
     weight_g := repeat 1 out_dim;
     weight_g_requires_grad := negb norm_last_layer |}.

(** What [_init_weights] does to one sub-module: a linear layer gets its weight
    from [trunc_normal_(m.weight, std=.02)] and a zero bias; anything else is
    left alone. *)
Inductive init_action : Type :=
| InitLinear (weight : TruncNormal.trunc_result) (bias : list R)
| Untouched.

(** [trunc_normal_(m.weight, std=.02)], on the unit draws for the weight's
    entries. *)
Definition init_linear_weight (rs : list R) : TruncNormal.trunc_result :=
  TruncNormal.trunc_normal_ rs None (Some (2 / 100)) None None.

(** The ends of the uniform fill for [trunc_normal_(m.weight, std=.02)]:
    [2 l - 1] and [2 u - 1] with the cut-offs 100 standard deviations away. *)
Definition fill_lo : R := 2 * TruncNormal.norm_cdf (-100) - 1.
Definition fill_hi : R := 2 * TruncNormal.norm_cdf 100 - 1.

(** The unit draw that the fill maps to [erf (3 / sqrt 2)], the value whose
    normal quantile is 3 (about 0.99865). *)
Definition draw3 : R := (erf (3 / sqrt 2) - fill_lo) / (fill_hi - fill_lo).

Definition _init_weights (m : layer) (rs : list R) : init_action :=
  match m with
  | Linear _ out_features => InitLinear (init_linear_weight rs) (repeat 0 out_features)
  | _ => Untouched
  end.

(** [nn.functional.normalize(x, dim=-1, p=2)] on one row: the row divided by
    its L2 norm, the norm clamped from below by [eps = 1e-12]. *)
Definition eps : R := / 10 ^ 12.

Definition normalize (v : list R) : list R :=
  map (fun x => x / Rmax (norm2 v) eps) v.

(** The first two lines of [DINOHead.forward]: the bottleneck rows, before the
    last layer.  [mlp_fn] is the function computed by [self.mlp] on a batch. *)
Definition bottleneck (mlp_fn : list (list R) -> list (list R))
    (x : list (list R)) : list (list R) :=
  map normalize (mlp_fn x).

(** [DINOHead.forward]. *)
Definition forward (mlp_fn last_layer_fn : list (list R) -> list (list R))
    (x : list (list R)) : list (list R) :=
  last_layer_fn (bottleneck mlp_fn x).

(** An [nn.Linear] applied to one row: [x W^T + bias]. *)
Definition dot (u v : list R) : R :=
  fold_right Rplus 0 (map (fun p => fst p * snd p) (combine u v)).

Definition linear_fn (weight : list (list R)) (bias : list R)
    (x : list (list R)) : list (list R) :=
  map (fun row => map (fun wb => dot row (fst wb) + snd wb) (combine weight bias)) x.

(** The layers of an [mlp], in the order they are applied. *)
Definition layers_of (a : mlp_arch) : list layer :=
  match a with
  | Single l => [l]
  | Sequential layers => layers
  end.

(** The width a layer gives to rows of width [w]: [nn.Linear] and
    [nn.BatchNorm1d] refuse rows of another width than they were built for. *)
Definition layer_out (w : nat) (l : layer) : option nat :=
  match l with
  | Linear in_features out_features =>
      if (in_features =? w)%nat then Some out_features else None
  | BatchNorm1d num_features => if (num_features =? w)%nat then Some w else None
  | GELU => Some w
  end.

Fixpoint widths_through (w : nat) (layers : list layer) : option nat :=
  match layers with
  | [] => Some w
  | l :: rest =>
      match layer_out w l with
      | Some w' => widths_through w' rest
      | None => None
      end
  end.

Definition is_linear (l : layer) : bool :=
  match l with Linear _ _ => true | _ => false end.
Definition is_batchnorm (l : layer) : bool :=
  match l with BatchNorm1d _ => true | _ => false end.
Definition is_gelu (l : layer) : bool :=
  match l with GELU => true | _ => false end.

End Head.

(** ** Multi-crop wrapper ([MultiCropWrapper]) *)

Module MultiCrop.

Section Wrapper.

(** One batch row of a crop (a channels-by-length signal), one row of backbone
    features, and whatever else a backbone may return next to the features. *)
Variables sample feature aux : Type.

(** A crop tensor of shape (batch, channels, length): its last dimension and
    its batch rows. *)
Record crop : Type := mkCrop {
  crop_len : nat;
  crop_rows : list sample
}.

(** The forward argument: a tensor or a list of tensors. *)
Inductive wrapper_input : Type :=
| OneTensor (t : crop)
| CropList (l : list crop).

(** A backbone returns a tensor, or a tuple whose first component is one. *)
Inductive backbone_out : Type :=
| Plain (t : list feature)
| Tuple (t : list feature) (rest : aux).

Variable backbone : crop -> backbone_out.
Variable head : list feature -> list (list R).

(** [if isinstance(_out, tuple): _out = _out[0]]. *)
Definition primary (o : backbone_out) : list feature :=
  match o with
  | Plain t => t
  | Tuple t _ => t
  end.

(** [torch.unique_consecutive(..., return_counts=True)[1]]: the lengths of the
    runs of equal consecutive values. *)
Fixpoint run_counts (prev count : nat) (l : list nat) : list nat :=
  match l with
  | [] => [count]
  | x :: t => if (x =? prev)%nat then run_counts prev (S count) t
              else count :: run_counts x 1 t
  end.

Definition unique_consecutive_counts (l : list nat) : list nat :=
  match l with
  | [] => []
  | x :: t => run_counts x 1 t
  end.

(** [torch.cumsum(..., 0)]. *)
Fixpoint cumsum_from (acc : nat) (l : list nat) : list nat :=
  match l with
  | [] => []
  | x :: t => (acc + x)%nat :: cumsum_from (acc + x)%nat t
  end.

Definition cumsum (l : list nat) : list nat := cumsum_from 0 l.

(** A Python slice [x[start:stop]]. *)
Definition slice {A : Type} (x : list A) (start stop : nat) : list A :=
  firstn (stop - start)%nat (skipn start x).

(** [torch.cat] along the batch axis: refused for an empty list and for
    tensors that differ in their last dimension. *)
Definition cat (xs : list crop) : option crop :=
  match xs with
  | [] => None
  | c :: t =>
      if forallb (fun d => (crop_len d =? crop_len c)%nat) t
      then Some {| crop_len := crop_len c; crop_rows := flat_map crop_rows xs |}
      else None
  end.

(** The [for end_idx in idx_crops] loop, with [start_idx] and [output] as its
    state. *)
Fixpoint forward_loop (x : list crop) (idx_crops : list nat) (start_idx : nat)
    (output : list feature) : option (list feature) :=
  match idx_crops with
  | [] => Some output
  | end_idx :: rest =>
      match cat (slice x start_idx end_idx) with
      | None => None
      | Some batch =>
          let _out := primary (backbone batch) in
          forward_loop x rest end_idx (output ++ _out)
      end
  end.

(** [MultiCropWrapper.forward]; [x[0].device] fails on an empty list. *)
Definition forward (inp : wrapper_input) : option (list (list R)) :=
  let x := match inp with OneTensor t => [t] | CropList l => l end in
  let idx_crops := cumsum (unique_consecutive_counts (map crop_len x)) in
  match x with
  | [] => None
  | _ :: _ =>
      match forward_loop x idx_crops 0 [] with
      | None => None
      | Some output => Some (head output)
      end
  end.

(** Two same-length crops passed as one merged tensor. *)
Definition merge (a b : crop) : crop :=
  {| crop_len := crop_len a; crop_rows := crop_rows a ++ crop_rows b |}.

(** The per-crop reference: the backbone on every crop by itself, the features
    concatenated in input order, then the head once. *)
Definition per_crop (x : list crop) : list (list R) :=
  head (flat_map (fun c => primary (backbone c)) x).

End Wrapper.

Arguments mkCrop {sample}.
Arguments crop_len {sample}.
Arguments crop_rows {sample}.
Arguments OneTensor {sample}.
Arguments CropList {sample}.
Arguments Plain {feature aux}.
Arguments Tuple {feature aux}.
Arguments primary {feature aux}.
Arguments cat {sample}.
Arguments merge {sample}.
Arguments forward_loop {sample feature aux}.
Arguments forward {sample feature aux}.
Arguments per_crop {sample feature aux}.

(** How many leading values of [l] equal [p]: the length of the first run of
    [p :: l], less one. *)
Fixpoint take_run (p : nat) (l : list nat) : nat :=
  match l with
  | [] => O
  | x :: t => if (x =? p)%nat then S (take_run p t) else O
  end.

(** A small instance: signals and features are numbers, the backbone adds the
    crop length to every row and returns a tuple, the head wraps each feature
    in a one-entry row. *)
Definition demo_backbone (c : crop nat) : backbone_out nat unit :=
  Tuple (map (fun s => (s + crop_len c)%nat) (crop_rows c)) tt.

Definition demo_head (f : list nat) : list (list R) := map (fun v => [INR v]) f.

Definition demo_crops : list (crop nat) :=
  [mkCrop 5 [1; 2]%nat; mkCrop 5 [3]%nat; mkCrop 2 [4; 5]%nat].

(** The runs of consecutive crops of one length, in order. *)
Fixpoint groups_fuel {sample : Type} (fuel : nat) (x : list (crop sample))
    : list (list (crop sample)) :=
  match fuel, x with
  | S fuel', c :: t =>
      let k := take_run (crop_len c) (map crop_len t) in
      (c :: firstn k t) :: groups_fuel fuel' (skipn k t)
  | _, _ => []
  end.

Definition groups {sample : Type} (x : list (crop sample)) : list (list (crop sample)) :=
  groups_fuel (length x) x.

(** The crops of one run as a single tensor, batch rows in order. *)
Definition merged {sample : Type} (g : list (crop sample)) : crop sample :=
  {| crop_len := match g with c :: _ => crop_len c | [] => O end;
     crop_rows := flat_map crop_rows g |}.

(** The tensors the loop hands to the backbone, [torch.cat(x[start_idx:
    end_idx])] for each run: consecutive crops of one length joined into one
    tensor, batch rows in order. *)
Fixpoint coalesce {sample : Type} (x : list (crop sample)) : list (crop sample) :=
  match x with
  | [] => []
  | c :: t =>
      match coalesce t with
      | d :: ds =>
          if (crop_len c =? crop_len d)%nat then merge c d :: ds else c :: d :: ds
      | [] => [c]
      end
  end.

(** A backbone whose rows depend on the batch they come in (as batch
    statistics do in training mode): it adds the batch size to every row. *)
Definition batch_backbone (c : crop nat) : backbone_out nat unit :=
  Plain (map (fun s => (s + length (crop_rows c))%nat) (crop_rows c)).

(** Two crops of one length, one row each. *)
Definition twin_crops : list (crop nat) := [mkCrop 5 [1]%nat; mkCrop 5 [3]%nat].

End MultiCrop.

(** ** Distillation loss with centring ([DINOLoss]) *)

Module Loss.

Definition vec : Type := list R.
(** A 2-D tensor as the list of its rows. *)
Definition mat : Type := list vec.

(** A tensor together with its autograd flag. *)
Record tensor : Type := mkTensor {
  rows : mat;
  requires_grad : bool
}.

(** The flag of a result computed from inputs with the given flags, under the
    given grad mode. *)
Definition result_requires_grad (grad_enabled : bool) (inputs : list bool) : bool :=
  grad_enabled && existsb (fun b => b) inputs.

Definition bind {A B : Type} (o : option A) (k : A -> option B) : option B :=
  match o with
  | Some a => k a
  | None => None
  end.

Notation "x <- e ;; k" := (bind e (fun x => k))
  (at level 61, e at next level, right associativity).

Fixpoint mapM {A B : Type} (f : A -> option B) (l : list A) : option (list B) :=
  match l with
  | [] => Some []
  | x :: t => y <- f x ;; ys <- mapM f t ;; Some (y :: ys)
  end.

Definition map2 {A B C : Type} (f : A -> B -> C) (a : list A) (b : list B) : list C :=
  map (fun p => f (fst p) (snd p)) (combine a b).

Definition rsum (v : list R) : R := fold_right Rplus 0 v.

(** Element-wise binary operation along one axis with torch's broadcasting:
    equal sizes pair up, a size of one is repeated, anything else is refused. *)
Definition bcast {A B : Type} (f : A -> A -> option B) (a b : list A) : option (list B) :=
  if (length a =? length b)%nat then mapM (fun p => f (fst p) (snd p)) (combine a b)
  else
    match a, b with
    | [x], _ => mapM (f x) b
    | _, [y] => mapM (fun x => f x y) a
    | _, _ => None
    end.

Definition vop (f : R -> R -> R) : vec -> vec -> option vec :=
  bcast (fun x y => Some (f x y)).

Definition mop (f : R -> R -> R) : mat -> mat -> option mat :=
  bcast (vop f).

(** [F.softmax(., dim=-1)] and [F.log_softmax(., dim=-1)] on one row. *)
Definition softmax (v : vec) : vec :=
  map (fun x => exp x / rsum (map exp v)) v.

Definition log_softmax (v : vec) : vec :=
  map (fun x => x - ln (rsum (map exp v))) v.

(** [Tensor.split(k)] along the batch axis, for [k >= 1]. *)
Fixpoint split_size {A : Type} (fuel k : nat) (l : list A) : list (list A) :=
  match fuel with
  | O => []
  | S fuel' =>
      match l with
      | [] => []
      | _ :: _ => firstn k l :: split_size fuel' k (skipn k l)
      end
  end.

(** [Tensor.chunk(chunks)]: pieces of [ceil(rows / chunks)] rows, so possibly
    fewer pieces than asked; an empty tensor gives [chunks] empty pieces; a
    chunk count of zero is refused. *)
Definition chunk {A : Type} (chunks : nat) (t : list A) : option (list (list A)) :=
  if (chunks =? 0)%nat then None
  else
    let n := length t in
    if (n =? 0)%nat then Some (repeat [] chunks)
    else Some (split_size n ((n + chunks - 1) / chunks)%nat t).

(** [np.linspace(start, stop, num)]. *)
Definition linspace (start stop : R) (num : nat) : list R :=
  match num with
  | O => []
  | S O => [start]
  | _ => map (fun i => start + INR i * ((stop - start) / INR (num - 1))) (seq 0 num)
  end.

Record DINOLoss : Type := mkDINOLoss {
  student_temp : R;
  center_momentum : R;
  ncrops : nat;
  center : mat;
  center_requires_grad : bool;
  teacher_temp_schedule : list R
}.

(** [DINOLoss.__init__]; [np.ones] of a negative count raises. *)
Definition DINOLoss_init (out_dim ncrops : nat) (warmup_teacher_temp teacher_temp : R)
    (warmup_teacher_temp_epochs nepochs : nat) (student_temp center_momentum : R)
    : option DINOLoss :=
  if (warmup_teacher_temp_epochs <=? nepochs)%nat then
    Some {| student_temp := student_temp;
            center_momentum := center_momentum;
            ncrops := ncrops;
            center := [repeat 0 out_dim];
            center_requires_grad := false;
            teacher_temp_schedule :=
              linspace warmup_teacher_temp teacher_temp warmup_teacher_temp_epochs
                ++ map (fun one => one * teacher_temp)
                       (repeat 1 (nepochs - warmup_teacher_temp_epochs)) |}
  else None.

(** [torch.sum(t, dim=0, keepdim=True)] for a tensor with at least one row.
    (With no row the source gets a zero row and then divides 0 by 0; that NaN
    has no counterpart among the reals.) *)
Definition colsum (t : mat) : vec :=
  match t with
  | [] => []
  | r :: rs => fold_left (map2 Rplus) rs r
  end.

Definition sum_dim0 (t : mat) : mat := [colsum t].

(** [dist.all_reduce] with the default sum: the local tensor plus the tensors
    the other processes contribute, all of one shape. *)
Definition same_shape (a b : mat) : bool :=
  if list_eq_dec Nat.eq_dec (map (@length R) a) (map (@length R) b) then true else false.

Definition all_reduce (local : mat) (peers : list mat) : option mat :=
  fold_left
    (fun acc p => a <- acc ;;
                  if same_shape a p then Some (map2 (map2 Rplus) a p) else None)
    peers (Some local).

(** [dist.get_world_size()]: this process and its peers. *)
Definition get_world_size (peers : list mat) : nat := S (length peers).

Definition scale (c : R) (t : mat) : mat := map (map (fun x => x * c)) t.
Definition divide (t : mat) (c : R) : mat := map (map (fun x => x / c)) t.

(** [DINOLoss.update_center], decorated with [torch.no_grad()]. *)
Definition update_center (st : DINOLoss) (teacher_output : tensor) (peers : list mat)
    : option DINOLoss :=
  let grad_enabled := false in
  let batch_center := sum_dim0 (rows teacher_output) in
  batch_center <- all_reduce batch_center peers ;;
  let batch_center :=
    divide batch_center (INR (length (rows teacher_output) * get_world_size peers)) in
  let batch_center := divide batch_center (INR (length (rows teacher_output))) in
  new_center <- mop Rplus (scale (center_momentum st) (center st))
                          (scale (1 - center_momentum st) batch_center) ;;
  Some {| student_temp := student_temp st;
          center_momentum := center_momentum st;
          ncrops := ncrops st;
          center := new_center;
          center_requires_grad :=
            result_requires_grad grad_enabled
              [center_requires_grad st; requires_grad teacher_output];
          teacher_temp_schedule := teacher_temp_schedule st |}.

(** One term of the loss:
    [torch.sum(-q * F.log_softmax(s, dim=-1), dim=-1).mean()]. *)
Definition pair_loss (q s : mat) : option R :=
  prod <- mop (fun a b => - a * b) q (map log_softmax s) ;;
  let loss := map rsum prod in
  Some (rsum loss / INR (length loss)).

(** The body of [for v in range(len(student_out))], on the running
    [(total_loss, n_loss_terms)]. *)
Definition inner_step (iq : nat) (q : mat) (student_out : list mat)
    (acc : option (R * nat)) (v : nat) : option (R * nat) :=
  tn <- acc ;;
  if (v =? iq)%nat then Some tn
  else
    s <- nth_error student_out v ;;
    loss <- pair_loss q s ;;
    Some (fst tn + loss, S (snd tn)).

(** The two nested loops of [forward]. *)
Definition loss_loops (teacher_out student_out : list mat) : option (R * nat) :=
  fold_left
    (fun acc iqq =>
       fold_left (inner_step (fst iqq) (snd iqq) student_out)
                 (seq 0 (length student_out)) acc)
    (combine (seq 0 (length teacher_out)) teacher_out)
    (Some (0, O)).

(** [DINOLoss.forward]: the loss and the object with its centre updated.
    [total_loss /= n_loss_terms] raises [ZeroDivisionError] when no term was
    accumulated. *)
Definition forward (st : DINOLoss) (peers : list mat)
    (student_output teacher_output : tensor) (epoch : nat) : option (R * DINOLoss) :=
  let student_out := divide (rows student_output) (student_temp st) in
  student_out <- chunk (ncrops st) student_out ;;
  temp <- nth_error (teacher_temp_schedule st) epoch ;;
  centered <- mop Rminus (rows teacher_output) (center st) ;;
  let teacher_out := map softmax (divide centered temp) in
  teacher_out <- chunk 2 teacher_out ;;
  tn <- loss_loops teacher_out student_out ;;
  if (snd tn =? 0)%nat then None
  else
    st' <- update_center st teacher_output peers ;;
    Some (fst tn / INR (snd tn), st').

(** The sum of column [j] of a tensor. *)
Definition column (j : nat) (t : mat) : R := rsum (map (fun r => nth j r 0) t).

(** The spec's description of the loss, to compare [forward] with. *)

(** "for each of 2 teacher indices, pair with all N student indices except
    when v == iq". *)
Definition pairs (N : nat) : list (nat * nat) :=
  flat_map (fun iq => map (fun v => (iq, v))
                          (filter (fun v => negb (v =? iq)%nat) (seq 0 N)))
           [0%nat; 1%nat].

(** Crop [v] of a crop-major stack with [batch] rows per crop. *)
Definition block {A : Type} (batch v : nat) (t : list A) : list A :=
  firstn batch (skipn (v * batch) t).

Definition mean (l : list R) : R := rsum l / INR (length l).

(** "the mean over rows of - sum over features of teacher_prob x
    log_softmax(student_chunk)". *)
Definition cross_entropy (q s : mat) : R :=
  mean (map (fun p => rsum (map2 (fun a b => - a * b) (fst p) (log_softmax (snd p))))
            (combine q s)).

(** "subtract the current center, divide by the teacher temperature, apply
    softmax along the feature axis". *)
Definition teacher_probs (c : vec) (temp : R) (t : mat) : mat :=
  map (fun r => softmax (map (fun x => x / temp) (map2 Rminus r c))) t.

(** A small instance: two crops of one row each, two output features, one
    peer process. *)
Definition demo_loss : DINOLoss :=
  {| student_temp := 1 / 10;
     center_momentum := 9 / 10;
     ncrops := 2;
     center := [[0; 0]];
     center_requires_grad := false;
     teacher_temp_schedule := [4 / 100] |}.

Definition demo_student : tensor := {| rows := [[1; 2]; [3; 4]]; requires_grad := true |}.
Definition demo_teacher : tensor := {| rows := [[2; 1]; [4; 3]]; requires_grad := false |}.
Definition demo_peers : list mat := [[[5; 6]]].

(** The running [total_loss] of the loops is not negative (or the loops have
    raised). *)
Definition total_nonneg (acc : option (R * nat)) : Prop :=
  match acc with
  | Some tn => 0 <= fst tn
  | None => True
  end.

(** [update_center] called [k] times in a row on the same teacher output. *)
Fixpoint update_center_times (k : nat) (st : DINOLoss) (teacher_output : tensor)
    (peers : list mat) : option DINOLoss :=
  match k with
  | O => Some st
  | S k' =>
      st' <- update_center st teacher_output peers ;;
      update_center_times k' st' teacher_output peers
  end.

(** Entry [j] of the batch centre as the code scales it. *)
Definition batch_center_entry (j : nat) (teacher_output : tensor) (peers : list mat) : R :=
  (column j (rows teacher_output) + rsum (map (column j) peers))
  / (INR (length (rows teacher_output)) * INR (length (rows teacher_output))
     * INR (get_world_size peers)).

(** The teacher side of [forward]: the temperature of the epoch, centring,
    sharpening, softmax, and the split into the two global crops. *)
Definition teacher_targets (st : DINOLoss) (teacher_output : tensor) (epoch : nat)
    : option (list mat) :=
  temp <- nth_error (teacher_temp_schedule st) epoch ;;
  centered <- mop Rminus (rows teacher_output) (center st) ;;
  chunk 2 (map softmax (divide centered temp)).

End Loss.

(** ** The training loop ([run]) *)

Module Train.

Import Loss.

(** The teacher momentum of the loop body: [m = 0.996]. *)
Definition m : R := 996 / 1000.

(** The loop over [zip(student.parameters(), teacher.parameters())]:
    [param_k.data.mul_(m).add_((1 - m) * param_q.detach().data)].  [zip] stops
    at the shorter list; teacher parameters past it stay as they are. *)
Fixpoint ema (m : R) (student teacher : list R) : list R :=
  match teacher, student with
  | k :: ks, q :: qs => (k * m + (1 - m) * q) :: ema m qs ks
  | _, _ => teacher
  end.

(** The checkpoint bookkeeping at the end of an epoch: the lowest mean loss so
    far and the epochs at which the two snapshots were written. *)
Record ckpt : Type := mkCkpt {
  lowest_train_loss : R;
  saved : list nat
}.

(** [lowest_train_loss = 10], before the first epoch. *)
Definition ckpt_init : ckpt := {| lowest_train_loss := 10; saved := [] |}.

(** The [if whole_train_loss < lowest_train_loss] block. *)
Definition epoch_end (epoch : nat) (whole_train_loss : R) (c : ckpt) : ckpt :=
  if Rlt_dec whole_train_loss (lowest_train_loss c)
  then {| lowest_train_loss := whole_train_loss; saved := saved c ++ [epoch] |}
  else c.

(** The bookkeeping over a run whose epochs [start, start+1, ...] end with the
    given mean losses. *)
Fixpoint track_from (start : nat) (losses : list R) (c : ckpt) : ckpt :=
  match losses with
  | [] => c
  | w :: rest => track_from (S start) rest (epoch_end start w c)
  end.

(** [run] counts its epochs from 1. *)
Definition track (losses : list R) : ckpt := track_from 1 losses ckpt_init.

(** [range(1, no_epoches + 1)]. *)
Definition epoch_range (no_epoches : nat) : list nat := seq 1 no_epoches.

(** [it = len(train_dataloader) * epoch + batch_idx]. *)
Definition global_step (steps epoch batch_idx : nat) : nat :=
  (steps * epoch + batch_idx)%nat.

Section Run.

(** One batch of crops; what the step carries besides the parameters (the
    optimiser's moments, the centre of the loss). *)
Variables batch carried : Type.

(** Teacher and student forward, the loss, [backward], the gradient
    cancelling and [optimizer.step()], as one function of the epoch, the
    learning rate, the weight decay and the teacher temperature of the step.
    The optimiser was built from [student.parameters()] only: the step reads
    the teacher and returns the loss value, the new student parameters and
    what it carries. *)
Variable learn :
  nat -> R -> R -> R -> list R -> list R -> carried -> batch -> R * list R * carried.

(** [len(train_dataloader)] and the batches of an epoch, by batch index. *)
Variable steps : nat.
Variable dataloader : nat -> nat -> batch.

(** Modelled from the spec: [cosine_scheduler] of [utils.tools] is not among
    the sources; its two results are taken as given sequences, which the spec
    says hold epochs x steps-per-epoch values each. *)
Variables lr_schedule wd_schedule : list R.
Variable teacher_temp_schedule : list R.

Record state : Type := mkState {
  student : list R;
  teacher : list R;
  extra : carried;
  lr : R;
  weight_decay : R;
  book : ckpt
}.

(** [teacher.load_state_dict(student.state_dict())] and the settings before
    the loop; the optimiser starts with [lr=0] and its default weight decay 0. *)
Definition init_state (student0 : list R) (extra0 : carried) : state :=
  {| student := student0;
     teacher := student0;
     extra := extra0;
     lr := 0;
     weight_decay := 0;
     book := ckpt_init |}.

(** One pass of the batch loop: the new state and the loss of the step.  A
    schedule read past the end raises [IndexError]. *)
Definition train_step (epoch : nat) (st : state) (batch_idx : nat)
    : option (state * R) :=
  let it := global_step steps epoch batch_idx in
  lr' <- nth_error lr_schedule it ;;
  wd' <- nth_error wd_schedule it ;;
  temp <- nth_error teacher_temp_schedule epoch ;;
  let '(loss, student', extra') :=
    learn epoch lr' wd' temp (student st) (teacher st) (extra st)
          (dataloader epoch batch_idx) in
  Some ({| student := student';
           teacher := ema m student' (teacher st);
           extra := extra';
           lr := lr';
           weight_decay := wd';
           book := book st |}, loss).

(** The batch loop of one epoch, with [train_loss] as it runs. *)
Fixpoint batch_loop (epoch : nat) (idxs : list nat) (st : state) (train_loss : R)
    : option (state * R) :=
  match idxs with
  | [] => Some (st, train_loss)
  | batch_idx :: rest =>
      r <- train_step epoch st batch_idx ;;
      batch_loop epoch rest (fst r) (train_loss + snd r)
  end.

(** One epoch.  With no batch at all [batch_idx] is unbound after the loop and
    [whole_train_loss] raises. *)
Definition train_epoch (epoch : nat) (st : state) : option state :=
  r <- batch_loop epoch (seq 0 steps) st 0 ;;
  match steps with
  | O => None
  | S last_batch_idx =>
      let whole_train_loss := snd r / INR (last_batch_idx + 1) in
      let st' := fst r in
      Some {| student := student st';
              teacher := teacher st';
              extra := extra st';
              lr := lr st';
              weight_decay := weight_decay st';
              book := epoch_end epoch whole_train_loss (book st') |}
  end.

Fixpoint run_epochs (epochs : list nat) (st : state) : option state :=
  match epochs with
  | [] => Some st
  | epoch :: rest => st' <- train_epoch epoch st ;; run_epochs rest st'
  end.

(** The epoch loop of [run]. *)
Definition run (no_epoches : nat) (student0 : list R) (extra0 : carried)
    : option state :=
  run_epochs (epoch_range no_epoches) (init_state student0 extra0).

End Run.

Arguments student {carried}.
Arguments teacher {carried}.
Arguments extra {carried}.
Arguments lr {carried}.
Arguments weight_decay {carried}.
Arguments book {carried}.
Arguments init_state {carried}.
Arguments train_step {batch carried}.
Arguments batch_loop {batch carried}.
Arguments train_epoch {batch carried}.
Arguments run_epochs {batch carried}.
Arguments run {batch carried}.

(** A small instance: three epochs of two steps, a step that moves every
    student parameter by the learning rate and reports the loss 12. *)
Definition demo_learn (epoch : nat) (lr wd temp : R) (student teacher : list R)
    (x : unit) (b : unit) : R * list R * unit :=
  (12, map (fun q => q - lr) student, tt).

Definition demo_dataloader (epoch batch_idx : nat) : unit := tt.
Definition demo_lr_schedule : list R := repeat (1 / 1000) 6.
Definition demo_wd_schedule : list R := repeat (4 / 100) 6.
Definition demo_temp_schedule : list R := repeat (4 / 100) 3.

Section RunLosses.

Variables batch carried : Type.
Variable learn :
  nat -> R -> R -> R -> list R -> list R -> carried -> batch -> R * list R * carried.
Variable steps : nat.
Variable dataloader : nat -> nat -> batch.
Variables lr_schedule wd_schedule : list R.
Variable teacher_temp_schedule : list R.

(** The values [loss.item()] takes along the batches of an epoch, each step
    run from the state the one before left. *)
Fixpoint step_losses (epoch : nat) (idxs : list nat) (st : state carried) : list R :=
  match idxs with
  | [] => []
  | batch_idx :: rest =>
      match train_step learn steps dataloader lr_schedule wd_schedule
                       teacher_temp_schedule epoch st batch_idx with
      | Some r => snd r :: step_losses epoch rest (fst r)
      | None => []
      end
  end.

(** The mean training loss of an epoch: the sum of its step losses over the
    number of batches. *)
Definition epoch_mean (epoch : nat) (st : state carried) : R :=
  rsum (step_losses epoch (seq 0 steps) st) / INR steps.

(** The mean losses of consecutive epochs, each epoch run from the state the
    one before left. *)
Fixpoint epoch_means (epochs : list nat) (st : state carried) : list R :=
  match epochs with
  | [] => []
  | epoch :: rest =>
      match train_epoch learn steps dataloader lr_schedule wd_schedule
                        teacher_temp_schedule epoch st with
      | Some st' => epoch_mean epoch st :: epoch_means rest st'
      | None => []
      end
  end.

End RunLosses.

Arguments step_losses {batch carried}.
Arguments epoch_mean {batch carried}.
Arguments epoch_means {batch carried}.

End Train.

(** * Properties *)

(** ** Facts about the numerical primitives *)

Section NumericFacts.
Import Numeric.

Lemma gauss_pos (t : R) : 0 < gauss t.
Proof. apply exp_pos. Qed.

Lemma gauss_lower (x y t : R) :
  x <= t <= y -> exp (- (Rmax (Rabs x) (Rabs y) * Rmax (Rabs x) (Rabs y))) <= gauss t.
Proof.
  intros [Hx Hy]. unfold gauss.
  set (M := Rmax (Rabs x) (Rabs y)).
  assert (Ht : Rabs t <= M).
  { unfold M. unfold Rabs at 1. destruct (Rcase_abs t).
    - apply Rle_trans with (Rabs x); [| apply Rmax_l].
      unfold Rabs. destruct (Rcase_abs x); lra.
    - apply Rle_trans with (Rabs y); [| apply Rmax_r].
      unfold Rabs. destruct (Rcase_abs y); lra. }
  assert (Hsq : t * t <= M * M).
  { replace (t * t) with (Rabs t * Rabs t).
    - pose proof (Rabs_pos t). apply Rmult_le_compat; lra.
    - unfold Rabs. destruct (Rcase_abs t); ring. }
  destruct (Rle_lt_or_eq_dec _ _ Hsq) as [Hlt | Heq].
  - left. apply exp_increasing. lra.
  - right. rewrite Heq. reflexivity.
Qed.

Lemma gauss_integral_pos (x y : R) :
  x < y -> 0 < RiemannInt (gauss_integrable x y).
Proof.
  intros Hxy.
  set (c := exp (- (Rmax (Rabs x) (Rabs y) * Rmax (Rabs x) (Rabs y)))).
  assert (Hc : 0 < c) by apply exp_pos.
  pose proof (RiemannInt_P19 (RiemannInt_P14 x y c) (gauss_integrable x y)
                (Rlt_le _ _ Hxy)) as Hle.
  rewrite RiemannInt_P15 in Hle.
  assert (Hb : c * (y - x) <= RiemannInt (gauss_integrable x y)).
  { apply Hle. intros t Ht. unfold fct_cte. apply gauss_lower. lra. }
  assert (0 < c * (y - x)) by (apply Rmult_lt_0_compat; lra).
  lra.
Qed.

Lemma two_over_sqrt_pi_pos : 0 < 2 / sqrt PI.
Proof.
  apply Rdiv_lt_0_compat; [lra | apply sqrt_lt_R0, PI_RGT_0].
Qed.

Lemma erf_increasing (x y : R) : x < y -> erf x < erf y.
Proof.
  intros Hxy. unfold erf.
  apply Rmult_lt_compat_l; [apply two_over_sqrt_pi_pos |].
  pose proof (RiemannInt_P26 (gauss_integrable 0 x) (gauss_integrable x y)
                (gauss_integrable 0 y)) as Hch.
  pose proof (gauss_integral_pos x y Hxy). lra.
Qed.

Lemma erf_injective (x y : R) : erf x = erf y -> x = y.
Proof.
  intros He.
  destruct (Rtotal_order x y) as [H | [H | H]]; [| exact H |].
  - apply erf_increasing in H. lra.
  - apply erf_increasing in H. lra.
Qed.

Lemma erfinv_erf (x : R) : erfinv (erf x) = x.
Proof.
  unfold erfinv. apply erf_injective.
  apply (epsilon_spec (inhabits 0) (fun z => erf z = erf x)).
  exists x. reflexivity.
Qed.

Lemma sqrt2_pos : 0 < sqrt 2.
Proof. apply sqrt_lt_R0. lra. Qed.

Lemma sqrt2_sqr : sqrt 2 * sqrt 2 = 2.
Proof. apply sqrt_sqrt. lra. Qed.

End NumericFacts.

(** ** The truncated-normal initialiser *)

Section TruncNormalFacts.
Import Numeric TruncNormal.

Lemma erf_monotone (x y : R) : x <= y -> erf x <= erf y.
Proof.
  intros [Hlt | Heq].
  - left. apply erf_increasing. exact Hlt.
  - right. rewrite Heq. reflexivity.
Qed.

Lemma norm_cdf_monotone (x y : R) : x <= y -> norm_cdf x <= norm_cdf y.
Proof.
  intros Hxy. unfold norm_cdf.
  assert (H : erf (x / sqrt 2) <= erf (y / sqrt 2)).
  { apply erf_monotone. unfold Rdiv.
    apply Rmult_le_compat_r; [| exact Hxy].
    left. apply Rinv_0_lt_compat, sqrt2_pos. }
  lra.
Qed.

Lemma two_norm_cdf (x : R) : 2 * norm_cdf x - 1 = erf (x / sqrt 2).
Proof. unfold norm_cdf. field. Qed.

Lemma clamp_bounds (a b x : R) : a <= b -> a <= clamp_ a b x <= b.
Proof.
  intros Hab. unfold clamp_, Rmin, Rmax.
  destruct (Rle_dec x a); destruct (Rle_dec _ b); lra.
Qed.

Lemma clamp_inside (a b x : R) : a <= x <= b -> clamp_ a b x = x.
Proof.
  intros Hx. unfold clamp_, Rmin, Rmax.
  destruct (Rle_dec x a); destruct (Rle_dec _ b); lra.
Qed.

Lemma warn_needed_iff (mean std a b : R) :
  warn_needed mean std a b = true <-> (mean < a - 2 * std \/ mean > b + 2 * std).
Proof.
  unfold warn_needed.
  destruct (Rlt_dec mean (a - 2 * std)); [tauto |].
  destruct (Rlt_dec (b + 2 * std) mean).
  - split; [intros _; right; lra | reflexivity].
  - split; [discriminate | intros [H | H]; lra].
Qed.

(** With a positive [std] and [a <= b] the call goes through and fills every
    entry by the four steps of the source. *)
Lemma trunc_normal_returns (rs : list R) (mean std a b : R) :
  0 < std -> a <= b ->
  _no_grad_trunc_normal_ rs mean std a b =
    (warn_needed mean std a b,
     Some (map (fun r =>
                  transform mean std a b
                    ((2 * norm_cdf ((a - mean) / std) - 1)
                     + r * ((2 * norm_cdf ((b - mean) / std) - 1)
                            - (2 * norm_cdf ((a - mean) / std) - 1))))
               rs)).
Proof.
  intros Hstd Hab. unfold _no_grad_trunc_normal_.
  destruct (Req_dec_T std 0) as [H0 | _]; [lra |].
  assert (Hm : norm_cdf ((a - mean) / std) <= norm_cdf ((b - mean) / std)).
  { apply norm_cdf_monotone. unfold Rdiv.
    apply Rmult_le_compat_r; [left; apply Rinv_0_lt_compat; exact Hstd | lra]. }
  destruct (Rlt_dec _ _) as [Hbad | _]; [lra |].
  unfold uniform_. rewrite map_map. reflexivity.
Qed.

(** C9. The initialiser issues its warning exactly when the mean is more than
    two standard deviations outside [a, b] (mean < a - 2 std or
    mean > b + 2 std); the warning stops nothing: for a positive std and
    a <= b the call, warned or not, fills every entry of the tensor and
    returns it. *)
Theorem trunc_normal_warning_iff (rs : list R) (mean std a b : R) :
  (fst (_no_grad_trunc_normal_ rs mean std a b) = true
   <-> (mean < a - 2 * std \/ mean > b + 2 * std))
  /\ (0 < std -> a <= b ->
      exists t, snd (_no_grad_trunc_normal_ rs mean std a b) = Some t
                /\ length t = length rs
                /\ Forall (fun v => a <= v <= b) t).
Proof.
  split.
  - unfold _no_grad_trunc_normal_.
    destruct (Req_dec_T std 0); [apply warn_needed_iff |].
    destruct (Rlt_dec _ _); apply warn_needed_iff.
  - intros Hstd Hab. rewrite (trunc_normal_returns rs mean std a b Hstd Hab).
    eexists. split; [reflexivity |]. split.
    + apply length_map.
    + apply Forall_forall. intros v Hv. apply in_map_iff in Hv.
      destruct Hv as [r [Hr _]]. subst v. apply clamp_bounds. exact Hab.
Qed.

(** The warning case at mean 10, std 1, [a, b] = [-2, 2] on a three-entry
    tensor. *)
Lemma trunc_normal_warning_iff_witness :
  (fst (_no_grad_trunc_normal_ [0; 1/2; 1/4] 10 1 (-2) 2) = true
   <-> (10 < -2 - 2 * 1 \/ 10 > 2 + 2 * 1))
  /\ exists t, snd (_no_grad_trunc_normal_ [0; 1/2; 1/4] 10 1 (-2) 2) = Some t
               /\ length t = length [0; 1/2; 1/4]
               /\ Forall (fun v => -2 <= v <= 2) t.
Proof.
  destruct (trunc_normal_warning_iff [0; 1/2; 1/4] 10 1 (-2) 2) as [Hwarn Hfill].
  split; [exact Hwarn | apply Hfill; lra].
Defined.

End TruncNormalFacts.

(** ** The projection head *)

Section HeadFacts.
Import Numeric TruncNormal Head.

Lemma fill_lo_lt_hi : fill_lo < fill_hi.
Proof.
  unfold fill_lo, fill_hi. rewrite !two_norm_cdf.
  apply erf_increasing. unfold Rdiv.
  apply Rmult_lt_compat_r; [apply Rinv_0_lt_compat, sqrt2_pos | lra].
Qed.

Lemma init_linear_weight_eq (rs : list R) :
  init_linear_weight rs =
    (false,
     Some (map (fun r =>
                  clamp_ (-2) 2
                    (erfinv (fill_lo + r * (fill_hi - fill_lo)) * (2 / 100 * sqrt 2) + 0))
               rs)).
Proof.
  unfold init_linear_weight, trunc_normal_.
  rewrite trunc_normal_returns by lra.
  replace ((-2 - 0) / (2 / 100)) with (-100) by field.
  replace ((2 - 0) / (2 / 100)) with 100 by field.
  f_equal.
  unfold warn_needed.
  destruct (Rlt_dec 0 (-2 - 2 * (2 / 100))); [lra |].
  destruct (Rlt_dec (2 + 2 * (2 / 100)) 0); [lra | reflexivity].
Qed.

Lemma draw3_unit : 0 <= draw3 < 1.
Proof.
  pose proof fill_lo_lt_hi as Hlh.
  assert (Hlo : fill_lo < erf (3 / sqrt 2)).
  { unfold fill_lo. rewrite two_norm_cdf. apply erf_increasing. unfold Rdiv.
    apply Rmult_lt_compat_r; [apply Rinv_0_lt_compat, sqrt2_pos | lra]. }
  assert (Hhi : erf (3 / sqrt 2) < fill_hi).
  { unfold fill_hi. rewrite two_norm_cdf. apply erf_increasing. unfold Rdiv.
    apply Rmult_lt_compat_r; [apply Rinv_0_lt_compat, sqrt2_pos | lra]. }
  unfold draw3. split.
  - left. apply Rdiv_lt_0_compat; lra.
  - apply Rmult_lt_reg_r with (fill_hi - fill_lo); [lra |].
    unfold Rdiv. rewrite Rmult_assoc, Rinv_l by lra. lra.
Qed.

Lemma draw3_value :
  clamp_ (-2) 2
    (erfinv (fill_lo + draw3 * (fill_hi - fill_lo)) * (2 / 100 * sqrt 2) + 0) = 6 / 100.
Proof.
  pose proof fill_lo_lt_hi as Hlh. pose proof sqrt2_pos as Hs.
  replace (fill_lo + draw3 * (fill_hi - fill_lo)) with (erf (3 / sqrt 2)).
  - rewrite erfinv_erf.
    replace (3 / sqrt 2 * (2 / 100 * sqrt 2) + 0) with (6 / 100) by (field; lra).
    apply clamp_inside. lra.
  - unfold draw3. field. lra.
Qed.

(** C6, as stated, fails: a unit draw for which the weight produced by
    [trunc_normal_(m.weight, std=.02)] is 0.06, outside [-0.04, 0.04]. *)
Lemma init_linear_weight_beyond_2std :
  exists r : R,
    0 <= r < 1
    /\ init_linear_weight [r] = (false, Some [6 / 100])
    /\ ~ (- (4 / 100) <= 6 / 100 <= 4 / 100).
Proof.
  exists draw3. split; [apply draw3_unit |]. split.
  - rewrite init_linear_weight_eq. simpl. rewrite draw3_value. reflexivity.
  - lra.
Qed.

(** C6, amended. The initialiser of the head's linear weights fills every
    entry by the inverse-CDF transform of a uniform draw with mean 0 and
    standard deviation 0.02, issues no warning, and every produced value lies
    between the absolute cut-offs a = -2 and b = 2 (100 standard deviations
    from the mean). *)
Theorem init_linear_weight_bounds (rs : list R) :
  exists t : list R,
    init_linear_weight rs = (false, Some t)
    /\ t = map (fun r =>
                  clamp_ (-2) 2
                    (erfinv (fill_lo + r * (fill_hi - fill_lo)) * (2 / 100 * sqrt 2) + 0))
               rs
    /\ length t = length rs
    /\ Forall (fun v => -2 <= v <= 2) t.
Proof.
  eexists. split; [apply init_linear_weight_eq |].
  split; [reflexivity |]. split; [apply length_map |].
  apply Forall_forall. intros v Hv. apply in_map_iff in Hv.
  destruct Hv as [r [Hr _]]. subst v. apply clamp_bounds. lra.
Qed.

(** C10. A requested layer count of at most 1 (zero and negative counts
    included) builds the head of layer count 1: one linear map from in_dim to
    bottleneck_dim and no hidden layer. *)
Theorem DINOHead_nlayers_clamped (in_dim out_dim : nat) (use_bn norm_last_layer : bool)
    (nlayers : Z) (hidden_dim bottleneck_dim : nat) :
  (nlayers <= 1)%Z ->
  DINOHead_init in_dim out_dim use_bn norm_last_layer nlayers hidden_dim bottleneck_dim
  = DINOHead_init in_dim out_dim use_bn norm_last_layer 1 hidden_dim bottleneck_dim
  /\ mlp (DINOHead_init in_dim out_dim use_bn norm_last_layer nlayers
                        hidden_dim bottleneck_dim)
     = Single (Linear in_dim bottleneck_dim).
Proof.
  intros Hn. unfold DINOHead_init, build_mlp. simpl.
  replace (Z.max nlayers 1) with 1%Z by lia.
  simpl. split; reflexivity.
Qed.

(** A negative layer count. *)
Lemma DINOHead_nlayers_clamped_witness :
  DINOHead_init 256 4096 false true (-3) 512 128
  = DINOHead_init 256 4096 false true 1 512 128
  /\ mlp (DINOHead_init 256 4096 false true (-3) 512 128)
     = Single (Linear 256 128).
Proof.
  apply (DINOHead_nlayers_clamped 256 4096 false true (-3) 512 128). lia.
Defined.

End HeadFacts.

Section NormalizeFacts.
Import Numeric Head.

Lemma eps_pos : 0 < eps.
Proof.
  unfold eps. apply Rinv_0_lt_compat. apply pow_lt. lra.
Qed.

Lemma sumsq_nonneg (v : list R) : 0 <= sumsq v.
Proof.
  induction v as [| x v IH]; simpl.
  - lra.
  - pose proof (Rle_0_sqr x) as Hx. unfold Rsqr in Hx. lra.
Qed.

Lemma sumsq_div (v : list R) (c : R) :
  c <> 0 -> sumsq (map (fun x => x / c) v) = sumsq v / (c * c).
Proof.
  intros Hc. induction v as [| x v IH]; simpl.
  - field. exact Hc.
  - rewrite IH. field. exact Hc.
Qed.

Lemma clamped_norm_pos (v : list R) : 0 < Rmax (norm2 v) eps.
Proof.
  apply Rlt_le_trans with eps; [apply eps_pos | apply Rmax_r].
Qed.

Lemma sumsq_normalize (v : list R) :
  sumsq (normalize v)
  = sumsq v / (Rmax (norm2 v) eps * Rmax (norm2 v) eps).
Proof.
  unfold normalize. apply sumsq_div.
  pose proof (clamped_norm_pos v). lra.
Qed.

Lemma normalize_unit (v : list R) : eps <= norm2 v -> norm2 (normalize v) = 1.
Proof.
  intros Hv. unfold norm2 at 1. rewrite sumsq_normalize.
  rewrite Rmax_left by exact Hv.
  unfold norm2. rewrite sqrt_sqrt by apply sumsq_nonneg.
  assert (Hpos : 0 < sumsq v).
  { pose proof eps_pos as He.
    destruct (sumsq_nonneg v) as [Hlt | Heq]; [exact Hlt |].
    unfold norm2 in Hv. rewrite <- Heq, sqrt_0 in Hv. lra. }
  replace (sumsq v / sumsq v) with 1 by (field; lra).
  apply sqrt_1.
Qed.

Lemma normalize_null (v : list R) : sumsq v = 0 -> norm2 (normalize v) = 0.
Proof.
  intros Hv. unfold norm2. rewrite sumsq_normalize, Hv.
  unfold Rdiv. rewrite Rmult_0_l. apply sqrt_0.
Qed.

(** C7, as stated, fails: a bias-free linear map on an all-zero input row gives
    an all-zero MLP output, and its normalised bottleneck row has norm 0. *)
Lemma bottleneck_zero_row_not_unit :
  exists row : list R,
    bottleneck (linear_fn [[1; 2]; [3; 4]] [0; 0]) [[0; 0]] = [row]
    /\ norm2 row = 0
    /\ norm2 row <> 1.
Proof.
  eexists. split; [reflexivity |].
  assert (H0 : norm2 (normalize
                        (map (fun wb => dot [0; 0] (fst wb) + snd wb)
                             (combine [[1; 2]; [3; 4]] [0; 0]))) = 0).
  { apply normalize_null. unfold sumsq, dot. simpl. ring. }
  split; [exact H0 | rewrite H0; lra].
Qed.

(** C7, amended. Every row of the MLP output whose L2 norm is at least the
    epsilon 1e-12 of the normalisation becomes a bottleneck row of L2 norm 1,
    whatever the MLP and the input are. *)
Theorem bottleneck_unit_norm (mlp_fn : list (list R) -> list (list R))
    (x : list (list R)) (i : nat) (row : list R) :
  nth_error (mlp_fn x) i = Some row ->
  eps <= norm2 row ->
  exists out : list R,
    nth_error (bottleneck mlp_fn x) i = Some out
    /\ out = normalize row
    /\ norm2 out = 1.
Proof.
  intros Hrow Hnorm. exists (normalize row). split.
  - unfold bottleneck. rewrite nth_error_map, Hrow. reflexivity.
  - split; [reflexivity | apply normalize_unit; exact Hnorm].
Qed.

(** The row (3, 4), of norm 5, through a one-layer MLP that is the identity. *)
Lemma bottleneck_unit_norm_witness :
  exists out : list R,
    nth_error (bottleneck (linear_fn [[1; 0]; [0; 1]] [0; 0]) [[3; 4]]) 0 = Some out
    /\ out = normalize (map (fun wb => dot [3; 4] (fst wb) + snd wb)
                            (combine [[1; 0]; [0; 1]] [0; 0]))
    /\ norm2 out = 1.
Proof.
  apply (bottleneck_unit_norm (linear_fn [[1; 0]; [0; 1]] [0; 0]) [[3; 4]] 0%nat).
  - reflexivity.
  - unfold norm2, sumsq, dot. simpl.
    replace ((3 * 1 + (4 * 0 + 0) + 0) * (3 * 1 + (4 * 0 + 0) + 0)
             + ((3 * 0 + (4 * 1 + 0) + 0) * (3 * 0 + (4 * 1 + 0) + 0) + 0))
      with (5 * 5) by ring.
    rewrite sqrt_square by lra.
    pose proof eps_pos as He.
    assert (eps <= 1).
    { unfold eps. rewrite <- Rinv_1. apply Rinv_le_contravar; [lra |].
      apply pow_R1_Rle. lra. }
    lra.
Defined.

End NormalizeFacts.

(** ** The multi-crop wrapper *)

Section RunLengths.
Import MultiCrop.

Lemma take_run_le (p : nat) (l : list nat) : (take_run p l <= length l)%nat.
Proof.
  induction l as [| x t IH]; simpl; [lia |].
  destruct (x =? p)%nat; simpl; lia.
Qed.

Lemma take_run_all (p : nat) (l : list nat) (y : nat) :
  In y (firstn (take_run p l) l) -> y = p.
Proof.
  induction l as [| x t IH]; simpl; [tauto |].
  destruct (x =? p)%nat eqn:E; simpl; [| tauto].
  intros [H | H]; [subst y; apply Nat.eqb_eq; exact E | apply IH; exact H].
Qed.

Lemma run_counts_spec (p c : nat) (l : list nat) :
  run_counts p c l
  = (c + take_run p l)%nat :: unique_consecutive_counts (skipn (take_run p l) l).
Proof.
  revert c. induction l as [| x t IH]; intros c; simpl.
  - rewrite Nat.add_0_r. reflexivity.
  - destruct (x =? p)%nat eqn:E.
    + rewrite IH. simpl. f_equal. lia.
    + rewrite Nat.add_0_r. reflexivity.
Qed.

End RunLengths.

Section MultiCropFacts.
Import MultiCrop.

Variables sample feature aux : Type.
Variable backbone : crop sample -> backbone_out feature aux.
Variable head : list feature -> list (list R).

(** The backbone treats batch rows independently: on two same-length crops
    merged into one tensor it returns the rows it returns on each, and it
    returns one feature row per batch row.  The head keeps the row count. *)
Hypothesis backbone_merge : forall a b : crop sample,
  crop_len a = crop_len b ->
  primary (backbone (merge a b)) = primary (backbone a) ++ primary (backbone b).
Hypothesis backbone_rows : forall c : crop sample,
  length (primary (backbone c)) = length (crop_rows c).
Hypothesis head_rows : forall f : list feature, length (head f) = length f.

Let bb (c : crop sample) : list feature := primary (backbone c).

Lemma group_features (len : nat) (c : crop sample) (t : list (crop sample)) :
  crop_len c = len ->
  (forall d, In d t -> crop_len d = len) ->
  primary (backbone {| crop_len := len; crop_rows := flat_map crop_rows (c :: t) |})
  = flat_map bb (c :: t).
Proof.
  revert c. induction t as [| d t IH]; intros c Hc Ht.
  - simpl. rewrite !app_nil_r. destruct c as [l r]. simpl in *. subst l. reflexivity.
  - change (flat_map crop_rows (c :: d :: t))
      with (crop_rows c ++ flat_map crop_rows (d :: t)).
    assert (Hd : crop_len d = len) by (apply Ht; left; reflexivity).
    assert (Hm : primary (backbone {| crop_len := len;
                                      crop_rows := crop_rows c
                                                   ++ flat_map crop_rows (d :: t) |})
                 = primary (backbone c)
                   ++ primary (backbone {| crop_len := len;
                                           crop_rows := flat_map crop_rows (d :: t) |})).
    { rewrite <- Hc.
      exact (backbone_merge c
               {| crop_len := crop_len c; crop_rows := flat_map crop_rows (d :: t) |}
               eq_refl). }
    rewrite Hm.
    rewrite (IH d Hd) by (intros e He; apply Ht; right; exact He).
    reflexivity.
Qed.

Lemma cat_group (c : crop sample) (t : list (crop sample)) :
  (forall d, In d t -> crop_len d = crop_len c) ->
  cat (c :: t)
  = Some {| crop_len := crop_len c; crop_rows := flat_map crop_rows (c :: t) |}.
Proof.
  intros Ht. unfold cat.
  replace (forallb (fun d => (crop_len d =? crop_len c)%nat) t) with true; [reflexivity |].
  symmetry. apply forallb_forall. intros d Hd. apply Nat.eqb_eq. apply Ht. exact Hd.
Qed.

Lemma slice_after_prefix (pre x : list (crop sample)) (k : nat) :
  slice (pre ++ x) (length pre) (length pre + k) = firstn k x.
Proof.
  unfold slice. replace (length pre + k - length pre)%nat with k by lia.
  rewrite skipn_app, skipn_all, Nat.sub_diag. reflexivity.
Qed.

Lemma forward_loop_runs (n : nat) :
  forall (x pre : list (crop sample)) (out : list feature),
    (length x <= n)%nat ->
    forward_loop backbone (pre ++ x)
      (cumsum_from (length pre) (unique_consecutive_counts (map crop_len x)))
      (length pre) out
    = Some (out ++ flat_map bb x).
Proof.
  induction n as [| n IH]; intros x pre out Hlen.
  - destruct x; [| simpl in Hlen; lia]. simpl. rewrite app_nil_r. reflexivity.
  - destruct x as [| c t]; [simpl; rewrite app_nil_r; reflexivity |].
    simpl map. unfold unique_consecutive_counts. rewrite run_counts_spec.
    set (k := take_run (crop_len c) (map crop_len t)).
    assert (Hk : (k <= length t)%nat).
    { unfold k. pose proof (take_run_le (crop_len c) (map crop_len t)) as H.
      rewrite length_map in H. exact H. }
    assert (Hsame : forall d, In d (firstn k t) -> crop_len d = crop_len c).
    { intros d Hd. apply (take_run_all (crop_len c) (map crop_len t)).
      fold k. rewrite firstn_map. apply in_map. exact Hd. }
    simpl cumsum_from. simpl forward_loop.
    rewrite slice_after_prefix. simpl firstn.
    rewrite (cat_group c (firstn k t) Hsame).
    rewrite (group_features (crop_len c) c (firstn k t) eq_refl Hsame).
    rewrite skipn_map.
    replace (pre ++ c :: t) with ((pre ++ c :: firstn k t) ++ skipn k t).
    2:{ rewrite <- app_assoc. simpl. rewrite firstn_skipn. reflexivity. }
    replace (length pre + S k)%nat with (length (pre ++ c :: firstn k t)).
    2:{ rewrite length_app. simpl. rewrite firstn_length_le by exact Hk. lia. }
    rewrite IH.
    2:{ rewrite length_skipn. simpl in Hlen. lia. }
    f_equal. rewrite <- app_assoc. f_equal.
    rewrite <- (firstn_skipn k t) at 3.
    change (c :: firstn k t ++ skipn k t) with ((c :: firstn k t) ++ skipn k t).
    rewrite flat_map_app. reflexivity.
Qed.

Lemma forward_list (x : list (crop sample)) :
  x <> [] -> forward backbone head (CropList x) = Some (per_crop backbone head x).
Proof.
  intros Hx. unfold forward, cumsum.
  destruct x as [| c t]; [congruence |].
  pose proof (forward_loop_runs (length (c :: t)) (c :: t) [] [] (le_n _)) as H.
  change (forward_loop backbone (c :: t)
            (cumsum_from 0 (unique_consecutive_counts (map crop_len (c :: t)))) 0 []
          = Some (flat_map bb (c :: t))) in H.
  rewrite H. reflexivity.
Qed.

Lemma features_rows (x : list (crop sample)) :
  length (flat_map bb x) = list_sum (map (fun c => length (crop_rows c)) x).
Proof.
  induction x as [| c t IH]; simpl; [reflexivity |].
  rewrite length_app, IH. unfold bb. rewrite backbone_rows. reflexivity.
Qed.

End MultiCropFacts.

(** ** The distillation loss and its centre *)

Section TensorFacts.
Import Loss.

Lemma mapM_total {A B : Type} (g : A -> B) (l : list A) :
  mapM (fun x => Some (g x)) l = Some (map g l).
Proof.
  induction l as [| x t IH]; simpl; [reflexivity |].
  rewrite IH. reflexivity.
Qed.

Lemma mapM_ext_in {A B : Type} (f : A -> option B) (g : A -> B) (l : list A) :
  (forall x, In x l -> f x = Some (g x)) -> mapM f l = Some (map g l).
Proof.
  induction l as [| x t IH]; intros H; simpl; [reflexivity |].
  rewrite (H x) by (left; reflexivity). simpl.
  rewrite IH by (intros y Hy; apply H; right; exact Hy). reflexivity.
Qed.

Lemma length_map2 {A B C : Type} (f : A -> B -> C) (a : list A) (b : list B) :
  length a = length b -> length (map2 f a b) = length a.
Proof.
  intros H. unfold map2. rewrite length_map, length_combine. lia.
Qed.

Lemma nth_map_lt {A : Type} (f : A -> R) (l : list A) (j : nat) (d : A) :
  (j < length l)%nat -> nth j (map f l) 0 = f (nth j l d).
Proof.
  intros H. rewrite (nth_indep (map f l) 0 (f d)) by (rewrite length_map; exact H).
  apply map_nth.
Qed.

Lemma nth_map2 (f : R -> R -> R) (a b : list R) (j : nat) :
  length a = length b -> (j < length a)%nat ->
  nth j (map2 f a b) 0 = f (nth j a 0) (nth j b 0).
Proof.
  intros Hlen Hj. unfold map2.
  rewrite (nth_map_lt (fun p => f (fst p) (snd p)) (combine a b) j (0, 0))
    by (rewrite length_combine; lia).
  rewrite combine_nth by exact Hlen. reflexivity.
Qed.

Lemma vop_same (f : R -> R -> R) (a b : vec) :
  length a = length b -> vop f a b = Some (map2 f a b).
Proof.
  intros H. unfold vop, bcast. rewrite H, Nat.eqb_refl.
  apply (mapM_total (fun p => f (fst p) (snd p))).
Qed.

End TensorFacts.

Section CenterFacts.
Import Loss.

Lemma colsum_fold (d : nat) (rs : mat) :
  forall r : vec,
    length r = d ->
    Forall (fun x => length x = d) rs ->
    length (fold_left (map2 Rplus) rs r) = d
    /\ forall j, (j < d)%nat ->
         nth j (fold_left (map2 Rplus) rs r) 0 = nth j r 0 + column j rs.
Proof.
  induction rs as [| x rs IH]; intros r Hr Hrs.
  - simpl. split; [exact Hr |]. intros j _. unfold column. simpl. lra.
  - inversion Hrs as [| ? ? Hx Hrest]; subst.
    simpl fold_left.
    destruct (IH (map2 Rplus r x)) as [Hlen Hnth].
    + rewrite length_map2 by congruence. reflexivity.
    + exact Hrest.
    + split; [exact Hlen |]. intros j Hj.
      rewrite (Hnth j Hj). rewrite nth_map2 by lia.
      unfold column. simpl. lra.
Qed.

Lemma colsum_entries (d : nat) (t : mat) :
  t <> [] ->
  Forall (fun x => length x = d) t ->
  length (colsum t) = d
  /\ forall j, (j < d)%nat -> nth j (colsum t) 0 = column j t.
Proof.
  intros Hne Ht. destruct t as [| r rs]; [congruence |].
  inversion Ht as [| ? ? Hr Hrs]; subst.
  destruct (colsum_fold (length r) rs r eq_refl Hrs) as [Hlen Hnth].
  split; [exact Hlen |]. intros j Hj. simpl colsum.
  rewrite (Hnth j Hj). unfold column. simpl. reflexivity.
Qed.

Lemma all_reduce_rows (d : nat) (peers : list mat) :
  forall v : vec,
    length v = d ->
    Forall (fun p => exists pv, p = [pv] /\ length pv = d) peers ->
    exists w : vec,
      all_reduce [v] peers = Some [w]
      /\ length w = d
      /\ forall j, (j < d)%nat ->
           nth j w 0 = nth j v 0 + rsum (map (column j) peers).
Proof.
  induction peers as [| p peers IH]; intros v Hv Hp.
  - exists v. split; [reflexivity |]. split; [exact Hv |].
    intros j _. simpl. lra.
  - inversion Hp as [| ? ? [pv [Hpv Hlen]] Hrest]; subst.
    destruct (IH (map2 Rplus v pv)) as [w [Hw [Hwl Hwn]]].
    + rewrite length_map2 by congruence. reflexivity.
    + exact Hrest.
    + exists w. split.
      * unfold all_reduce in *. simpl fold_left. unfold same_shape. simpl map.
        destruct (list_eq_dec Nat.eq_dec [length v] [length pv]) as [_ | Hne];
          [exact Hw | congruence].
      * split; [exact Hwl |]. intros j Hj.
        rewrite (Hwn j Hj). rewrite nth_map2 by lia.
        unfold column. simpl. lra.
Qed.

(** C1. For a teacher output with at least one row, [update_center] sums its
    columns, adds the column sums of the other processes (all-reduce), divides
    by local rows x world size and again by local rows - a scale of
    1/(local_rows^2 x world_size) - and sets the centre to
    old x momentum + batch_center x (1 - momentum); the new centre does not
    require grad; and a loss computation that returns has updated the centre
    by exactly this one call. *)
Theorem update_center_ema (st : DINOLoss) (teacher_output : tensor)
    (peers : list mat) (d : nat) (c : vec) :
  center st = [c] ->
  length c = d ->
  rows teacher_output <> [] ->
  Forall (fun r => length r = d) (rows teacher_output) ->
  Forall (fun p => exists pv, p = [pv] /\ length pv = d) peers ->
  exists st' : DINOLoss,
    update_center st teacher_output peers = Some st'
    /\ (exists row : vec,
          center st' = [row]
          /\ length row = d
          /\ forall j, (j < d)%nat ->
               nth j row 0
               = nth j c 0 * center_momentum st
                 + (column j (rows teacher_output) + rsum (map (column j) peers))
                   / (INR (length (rows teacher_output))
                      * INR (length (rows teacher_output))
                      * INR (get_world_size peers))
                   * (1 - center_momentum st))
    /\ center_requires_grad st' = false
    /\ (forall (student_output : tensor) (epoch : nat) (loss : R) (st'' : DINOLoss),
          forward st peers student_output teacher_output epoch = Some (loss, st'') ->
          st'' = st').
Proof.
  intros Hc Hlen Hne Hrect Hpeers.
  destruct (colsum_entries d (rows teacher_output) Hne Hrect) as [Hsl Hsn].
  destruct (all_reduce_rows d peers (colsum (rows teacher_output)) Hsl Hpeers)
    as [w [Hw [Hwl Hwn]]].
  set (n := length (rows teacher_output)) in *.
  set (W := get_world_size peers) in *.
  set (bc := map (fun x => x / INR n) (map (fun x => x / INR (n * W)) w)).
  set (row := map2 Rplus (map (fun x => x * center_momentum st) c)
                         (map (fun x => x * (1 - center_momentum st)) bc)).
  assert (Hupd : update_center st teacher_output peers
                 = Some {| student_temp := student_temp st;
                           center_momentum := center_momentum st;
                           ncrops := ncrops st;
                           center := [row];
                           center_requires_grad := false;
                           teacher_temp_schedule := teacher_temp_schedule st |}).
  { unfold update_center, sum_dim0. rewrite Hw. simpl bind.
    rewrite Hc. unfold scale, divide. simpl map.
    unfold mop, bcast. simpl length. simpl Nat.eqb. simpl combine. simpl mapM.
    fold n W. fold bc.
    rewrite vop_same by (unfold bc; rewrite !length_map; congruence).
    reflexivity. }
  eexists. split; [exact Hupd |]. split; [| split].
  - exists row. split; [reflexivity |]. split.
    + unfold row. rewrite length_map2; unfold bc; rewrite !length_map; congruence.
    + intros j Hj. unfold row.
      rewrite nth_map2 by (unfold bc; rewrite !length_map; congruence || lia).
      rewrite (nth_map_lt (fun x => x * center_momentum st) c j 0) by lia.
      rewrite (nth_map_lt (fun x => x * (1 - center_momentum st)) bc j 0)
        by (unfold bc; rewrite !length_map; lia).
      unfold bc.
      rewrite (nth_map_lt (fun x => x / INR n) _ j 0) by (rewrite length_map; lia).
      rewrite (nth_map_lt (fun x => x / INR (n * W)) w j 0) by lia.
      rewrite (Hwn j Hj), (Hsn j Hj).
      rewrite mult_INR.
      assert (Hn : INR n <> 0).
      { apply not_0_INR. unfold n. destruct (rows teacher_output); simpl; congruence. }
      assert (HW : INR W <> 0) by (apply not_0_INR; unfold W, get_world_size; lia).
      field. split; assumption.
  - reflexivity.
  - intros student_output epoch loss st'' Hf.
    unfold forward in Hf.
    destruct (chunk (ncrops st) _); simpl in Hf; [| discriminate].
    destruct (nth_error (teacher_temp_schedule st) epoch); simpl in Hf; [| discriminate].
    destruct (mop Rminus _ _); simpl in Hf; [| discriminate].
    destruct (chunk 2 _); simpl in Hf; [| discriminate].
    destruct (loss_loops _ _) as [tn |]; simpl in Hf; [| discriminate].
    destruct (snd tn =? 0)%nat; [discriminate |].
    rewrite Hupd in Hf. simpl in Hf. congruence.
Qed.

End CenterFacts.

Section ChunkFacts.
Import Loss.

Lemma split_size_blocks {A : Type} (k : nat) :
  (1 <= k)%nat ->
  forall (n fuel : nat) (l : list A),
    length l = (n * k)%nat -> (n <= fuel)%nat ->
    split_size fuel k l = map (fun v => block k v l) (seq 0 n).
Proof.
  intros Hk. induction n as [| n IH]; intros fuel l Hlen Hfuel.
  - simpl in Hlen. apply length_zero_iff_nil in Hlen. subst l.
    destruct fuel; reflexivity.
  - destruct fuel as [| fuel]; [lia |].
    destruct l as [| a l']; [simpl in Hlen; lia |].
    set (l := a :: l') in *.
    change (split_size (S fuel) k l) with (firstn k l :: split_size fuel k (skipn k l)).
    rewrite (IH fuel (skipn k l)).
    + simpl seq. simpl map. f_equal.
      rewrite <- seq_shift, map_map. apply map_ext. intros v.
      unfold block. rewrite skipn_skipn. f_equal. f_equal. lia.
    + rewrite length_skipn, Hlen. simpl. lia.
    + lia.
Qed.

Lemma chunk_blocks {A : Type} (n k : nat) (l : list A) :
  (1 <= n)%nat -> (1 <= k)%nat -> length l = (n * k)%nat ->
  chunk n l = Some (map (fun v => block k v l) (seq 0 n)).
Proof.
  intros Hn Hk Hlen. unfold chunk.
  destruct (n =? 0)%nat eqn:En; [apply Nat.eqb_eq in En; lia |].
  destruct (length l =? 0)%nat eqn:El.
  - apply Nat.eqb_eq in El. rewrite Hlen in El. nia.
  - f_equal. rewrite Hlen.
    replace ((n * k + n - 1) / n)%nat with k.
    + apply split_size_blocks; [exact Hk | exact Hlen | nia].
    + apply Nat.div_unique with (n - 1)%nat; lia.
Qed.

Lemma in_block {A : Type} (k v : nat) (l : list A) (x : A) :
  In x (block k v l) -> In x l.
Proof.
  unfold block. intros Hx.
  rewrite <- (firstn_skipn (v * k) l). apply in_or_app. right.
  rewrite <- (firstn_skipn k (skipn (v * k) l)). apply in_or_app. left. exact Hx.
Qed.

Lemma block_rect {A : Type} (P : A -> Prop) (k v : nat) (l : list A) :
  Forall P l -> Forall P (block k v l).
Proof.
  intros H. apply Forall_forall. intros x Hx.
  apply (proj1 (Forall_forall P l) H). apply (in_block k v). exact Hx.
Qed.

Lemma block_length {A : Type} (n k v : nat) (l : list A) :
  length l = (n * k)%nat -> (v < n)%nat -> length (block k v l) = k.
Proof.
  intros Hlen Hv. unfold block. rewrite length_firstn, length_skipn, Hlen. nia.
Qed.

End ChunkFacts.

Section LossFacts.
Import Loss.

Lemma combine_map_r {A B C : Type} (g : B -> C) (a : list A) (b : list B) :
  combine a (map g b) = map (fun p => (fst p, g (snd p))) (combine a b).
Proof.
  revert b. induction a as [| x a IH]; intros [| y b]; simpl; try reflexivity.
  rewrite IH. reflexivity.
Qed.

Lemma bcast_row_right {A B : Type} (f : A -> A -> option B) (a : list A) (y : A) :
  (2 <= length a)%nat -> bcast f a [y] = mapM (fun x => f x y) a.
Proof.
  intros H. destruct a as [| x [| x' a']]; simpl in H; try lia. reflexivity.
Qed.

Lemma pair_loss_value (d : nat) (q s : mat) :
  length q = length s ->
  Forall (fun r => length r = d) q ->
  Forall (fun r => length r = d) s ->
  pair_loss q s = Some (cross_entropy q s).
Proof.
  intros Hlen Hq Hs. unfold pair_loss, mop, bcast.
  rewrite length_map, Hlen, Nat.eqb_refl.
  rewrite (mapM_ext_in _ (fun p => map2 (fun a b => - a * b) (fst p) (snd p))).
  - simpl bind. unfold cross_entropy, mean.
    rewrite combine_map_r, !map_map. simpl. reflexivity.
  - intros [a b] Hab. simpl. apply vop_same.
    pose proof (in_combine_l _ _ _ _ Hab) as Ha.
    pose proof (in_combine_r _ _ _ _ Hab) as Hb.
    apply in_map_iff in Hb. destruct Hb as [r [Hr Hin]]. subst b.
    unfold log_softmax. rewrite length_map.
    rewrite (proj1 (Forall_forall _ q) Hq a Ha).
    rewrite (proj1 (Forall_forall _ s) Hs r Hin). reflexivity.
Qed.

Lemma inner_fold (iq : nat) (q : mat) (student_out : list mat) (g : nat -> R) :
  forall (vs : list nat) (tot : R) (n : nat),
    (forall v, In v vs -> v <> iq ->
       exists s, nth_error student_out v = Some s /\ pair_loss q s = Some (g v)) ->
    fold_left (inner_step iq q student_out) vs (Some (tot, n))
    = Some (tot + rsum (map g (filter (fun v => negb (v =? iq)%nat) vs)),
            (n + length (filter (fun v => negb (v =? iq)%nat) vs))%nat).
Proof.
  induction vs as [| v vs IH]; intros tot n H.
  - simpl. rewrite Rplus_0_r, Nat.add_0_r. reflexivity.
  - simpl filter. destruct (v =? iq)%nat eqn:E.
    + assert (Hstep : inner_step iq q student_out (Some (tot, n)) v = Some (tot, n)).
      { unfold inner_step. simpl. rewrite E. reflexivity. }
      cbn [fold_left]. rewrite Hstep. simpl negb. cbv iota.
      apply IH. intros w Hw. apply H. right. exact Hw.
    + destruct (H v (or_introl eq_refl)) as [s [Hs Hp]];
        [apply Nat.eqb_neq; exact E |].
      assert (Hstep : inner_step iq q student_out (Some (tot, n)) v
                      = Some (tot + g v, S n)).
      { unfold inner_step. simpl. rewrite E, Hs. simpl. rewrite Hp. reflexivity. }
      cbn [fold_left]. rewrite Hstep.
      rewrite IH by (intros w Hw; apply H; right; exact Hw).
      simpl negb. cbv iota. simpl. f_equal. f_equal; [lra | lia].
Qed.

Lemma others_length (iq : nat) :
  forall (n a : nat),
    length (filter (fun v => negb (v =? iq)%nat) (seq a n))
    = if ((a <=? iq) && (iq <? a + n))%bool then (n - 1)%nat else n.
Proof.
  induction n as [| n IH]; intros a.
  - simpl. destruct (a <=? iq)%nat eqn:E1; destruct (iq <? a + 0)%nat eqn:E2;
      simpl; reflexivity.
  - simpl seq. simpl filter. rewrite <- Nat.add_succ_comm.
    destruct (a =? iq)%nat eqn:E; simpl negb; cbv iota.
    + apply Nat.eqb_eq in E. subst a. rewrite IH.
      replace (S iq <=? iq)%nat with false by (symmetry; apply Nat.leb_gt; lia).
      replace (iq <=? iq)%nat with true by (symmetry; apply Nat.leb_le; lia).
      replace (iq <? S iq + n)%nat with true by (symmetry; apply Nat.ltb_lt; lia).
      simpl. lia.
    + apply Nat.eqb_neq in E. simpl length. rewrite IH.
      destruct (Nat.leb_spec (S a) iq); destruct (Nat.leb_spec a iq);
        destruct (Nat.ltb_spec iq (S a + n)); simpl; lia.
Qed.

Lemma pairs_length (N : nat) : (2 <= N)%nat -> length (pairs N) = (2 * N - 2)%nat.
Proof.
  intros HN. unfold pairs. simpl flat_map.
  rewrite !length_app, !length_map, !others_length. simpl length.
  replace (0 <=? 0)%nat with true by reflexivity.
  replace (0 <=? 1)%nat with true by reflexivity.
  replace (0 <? 0 + N)%nat with true by (symmetry; apply Nat.ltb_lt; lia).
  replace (1 <? 0 + N)%nat with true by (symmetry; apply Nat.ltb_lt; lia).
  simpl. lia.
Qed.

Lemma update_center_returns (st : DINOLoss) (teacher_output : tensor)
    (peers : list mat) (d : nat) (c : vec) :
  center st = [c] ->
  length c = d ->
  rows teacher_output <> [] ->
  Forall (fun r => length r = d) (rows teacher_output) ->
  Forall (fun p => exists pv, p = [pv] /\ length pv = d) peers ->
  exists st' : DINOLoss, update_center st teacher_output peers = Some st'.
Proof.
  intros Hc Hlen Hne Hrect Hpeers.
  destruct (colsum_entries d (rows teacher_output) Hne Hrect) as [Hsl _].
  destruct (all_reduce_rows d peers (colsum (rows teacher_output)) Hsl Hpeers)
    as [w [Hw [Hwl _]]].
  unfold update_center, sum_dim0. rewrite Hw. simpl bind.
  rewrite Hc. unfold scale, divide. simpl map.
  unfold mop, bcast. simpl length. simpl Nat.eqb. simpl combine. simpl mapM.
  rewrite vop_same by (rewrite !length_map; congruence).
  simpl. eexists. reflexivity.
Qed.

End LossFacts.

Section ForwardFacts.
Import Loss.

Lemma rsum_app (a b : list R) : rsum (a ++ b) = rsum a + rsum b.
Proof.
  induction a as [| x a IH]; simpl; [lra | rewrite IH; lra].
Qed.

Lemma nth_error_map_seq {A : Type} (f : nat -> A) (n v : nat) :
  (v < n)%nat -> nth_error (map f (seq 0 n)) v = Some (f v).
Proof.
  intros Hv. rewrite nth_error_map, nth_error_seq.
  destruct (Nat.ltb_spec v n); [reflexivity | lia].
Qed.

Lemma pairs_spec (N iq v : nat) :
  In (iq, v) (pairs N) <-> ((iq < 2)%nat /\ (v < N)%nat /\ v <> iq).
Proof.
  unfold pairs. rewrite in_flat_map. split.
  - intros [i [Hi Hin]]. apply in_map_iff in Hin.
    destruct Hin as [w [Heq Hw]]. inversion Heq; subst i w.
    apply filter_In in Hw. destruct Hw as [Hseq Hneq].
    apply in_seq in Hseq. apply negb_true_iff, Nat.eqb_neq in Hneq.
    simpl in Hi. split; [| split]; [lia | lia | exact Hneq].
  - intros [Hiq [Hv Hneq]]. exists iq. split.
    + simpl. lia.
    + apply in_map. apply filter_In. split.
      * apply in_seq. lia.
      * apply negb_true_iff, Nat.eqb_neq. exact Hneq.
Qed.

Lemma teacher_rows_width (d : nat) (c : vec) (temp : R) (t : mat) :
  length c = d ->
  Forall (fun r => length r = d) t ->
  Forall (fun r => length r = d) (teacher_probs c temp t).
Proof.
  intros Hc Ht. apply Forall_forall. intros r Hr.
  unfold teacher_probs in Hr. apply in_map_iff in Hr.
  destruct Hr as [x [Hx Hin]]. subst r.
  unfold softmax. rewrite !length_map.
  rewrite length_map2; rewrite (proj1 (Forall_forall _ t) Ht x Hin); congruence.
Qed.

Lemma divide_rows_width (d : nat) (temp : R) (t : mat) :
  Forall (fun r => length r = d) t ->
  Forall (fun r => length r = d) (divide t temp).
Proof.
  intros Ht. apply Forall_forall. intros r Hr.
  unfold divide in Hr. apply in_map_iff in Hr.
  destruct Hr as [x [Hx Hin]]. subst r. rewrite length_map.
  apply (proj1 (Forall_forall _ t) Ht x Hin).
Qed.

(** C2. With N >= 2 crops of [batch] rows each in the student output and the
    two global crops in the teacher output, [forward] returns the sum of the
    per-pair mean cross-entropy terms over exactly the pairs (iq, v) with
    iq in {0, 1}, v in {0, ..., N-1} and v <> iq, divided by their number
    2N - 2. *)
Theorem forward_cross_view_pairs (st : DINOLoss) (peers : list mat)
    (student_output teacher_output : tensor) (epoch N batch d : nat)
    (c : vec) (temp : R) :
  ncrops st = N ->
  (2 <= N)%nat ->
  (1 <= batch)%nat ->
  length (rows student_output) = (N * batch)%nat ->
  length (rows teacher_output) = (2 * batch)%nat ->
  Forall (fun r => length r = d) (rows student_output) ->
  Forall (fun r => length r = d) (rows teacher_output) ->
  center st = [c] ->
  length c = d ->
  Forall (fun p => exists pv, p = [pv] /\ length pv = d) peers ->
  nth_error (teacher_temp_schedule st) epoch = Some temp ->
  exists st' : DINOLoss,
    forward st peers student_output teacher_output epoch
    = Some (rsum (map (fun p =>
                         cross_entropy
                           (block batch (fst p)
                              (teacher_probs c temp (rows teacher_output)))
                           (block batch (snd p)
                              (divide (rows student_output) (student_temp st))))
                      (pairs N))
            / INR (2 * N - 2),
            st')
    /\ length (pairs N) = (2 * N - 2)%nat
    /\ (forall iq v, In (iq, v) (pairs N)
                     <-> ((iq < 2)%nat /\ (v < N)%nat /\ v <> iq)).
Proof.
  intros HN HN2 Hb Hsl Htl Hsw Htw Hc Hcl Hpeers Htemp.
  assert (Hne : rows teacher_output <> []).
  { intros E. rewrite E in Htl. simpl in Htl. lia. }
  destruct (update_center_returns st teacher_output peers d c Hc Hcl Hne Htw Hpeers)
    as [st' Hst'].
  exists st'. split; [| split; [apply pairs_length; exact HN2 | apply pairs_spec]].
  set (P := teacher_probs c temp (rows teacher_output)).
  set (S' := divide (rows student_output) (student_temp st)).
  assert (HS'l : length S' = (N * batch)%nat).
  { unfold S', divide. rewrite length_map. exact Hsl. }
  assert (HPl : length P = (2 * batch)%nat).
  { unfold P, teacher_probs. rewrite length_map. exact Htl. }
  assert (HS'w : Forall (fun r => length r = d) S')
    by (apply divide_rows_width; exact Hsw).
  assert (HPw : Forall (fun r => length r = d) P)
    by (apply teacher_rows_width; assumption).
  unfold forward. fold S'. rewrite HN.
  rewrite (chunk_blocks N batch S') by (lia || exact HS'l). simpl bind.
  rewrite Htemp. simpl bind.
  rewrite Hc. unfold mop. rewrite bcast_row_right by lia.
  rewrite (mapM_ext_in _ (fun r => map2 Rminus r c)).
  2:{ intros r Hr. apply vop_same.
      rewrite (proj1 (Forall_forall _ _) Htw r Hr). congruence. }
  simpl bind.
  replace (map softmax (divide (map (fun r => map2 Rminus r c) (rows teacher_output)) temp))
    with P by (unfold P, teacher_probs, divide; rewrite !map_map; reflexivity).
  rewrite (chunk_blocks 2 batch P) by (lia || exact HPl). simpl bind.
  assert (Hterm : forall iq, (iq < 2)%nat ->
            forall v, In v (seq 0 N) -> v <> iq ->
              exists s,
                nth_error (map (fun w => block batch w S') (seq 0 N)) v = Some s
                /\ pair_loss (block batch iq P) s
                   = Some (cross_entropy (block batch iq P) (block batch v S'))).
  { intros iq Hiq v Hv _. apply in_seq in Hv.
    exists (block batch v S').
    split; [apply (nth_error_map_seq (fun w => block batch w S')); lia |].
    apply (pair_loss_value d).
    - rewrite (block_length 2 batch iq P HPl Hiq).
      rewrite (block_length N batch v S' HS'l) by lia. reflexivity.
    - apply block_rect. exact HPw.
    - apply block_rect. exact HS'w. }
  unfold loss_loops. rewrite !length_map, !length_seq.
  simpl seq at 1. simpl map at 1. simpl combine. cbn [fold_left fst snd].
  rewrite (inner_fold 0 (block batch 0 P) _
             (fun v => cross_entropy (block batch 0 P) (block batch v S')))
    by (apply Hterm; lia).
  rewrite (inner_fold 1 (block batch 1 P) _
             (fun v => cross_entropy (block batch 1 P) (block batch v S')))
    by (apply Hterm; lia).
  cbn [bind fst snd Nat.add].
  pose proof (pairs_length N HN2) as Hpl.
  unfold pairs in Hpl. cbn [flat_map] in Hpl.
  rewrite app_nil_r, length_app, !length_map in Hpl.
  rewrite Hpl.
  destruct (2 * N - 2 =? 0)%nat eqn:E; [apply Nat.eqb_eq in E; lia |].
  rewrite Hst'. cbn [bind]. f_equal. f_equal. f_equal.
  unfold pairs. cbn [flat_map]. rewrite app_nil_r, map_app, !map_map, rsum_app.
  cbn [fst snd]. lra.
Qed.

End ForwardFacts.

Section LossDemo.
Import Loss.

Lemma demo_peers_ok :
  Forall (fun p : mat => exists pv, p = [pv] /\ length pv = 2%nat) demo_peers.
Proof.
  unfold demo_peers. constructor; [| constructor].
  exists [5; 6]. split; reflexivity.
Qed.

Lemma demo_rows_ok (a b c d : R) :
  Forall (fun r : vec => length r = 2%nat) [[a; b]; [c; d]].
Proof. repeat constructor. Qed.

(** Two teacher rows (2, 1) and (4, 3), one peer contributing (5, 6). *)
Lemma update_center_ema_witness :
  exists st' : DINOLoss,
    update_center demo_loss demo_teacher demo_peers = Some st'
    /\ (exists row : vec,
          center st' = [row]
          /\ length row = 2%nat
          /\ forall j, (j < 2)%nat ->
               nth j row 0
               = nth j [0; 0] 0 * center_momentum demo_loss
                 + (column j (rows demo_teacher) + rsum (map (column j) demo_peers))
                   / (INR (length (rows demo_teacher))
                      * INR (length (rows demo_teacher))
                      * INR (get_world_size demo_peers))
                   * (1 - center_momentum demo_loss))
    /\ center_requires_grad st' = false
    /\ (forall (student_output : tensor) (epoch : nat) (loss : R) (st'' : DINOLoss),
          forward demo_loss demo_peers student_output demo_teacher epoch
          = Some (loss, st'') ->
          st'' = st').
Proof.
  apply (update_center_ema demo_loss demo_teacher demo_peers 2 [0; 0]).
  - reflexivity.
  - reflexivity.
  - discriminate.
  - apply demo_rows_ok.
  - apply demo_peers_ok.
Defined.

(** Two crops, one row per crop. *)
Lemma forward_cross_view_pairs_witness :
  exists st' : DINOLoss,
    forward demo_loss demo_peers demo_student demo_teacher 0
    = Some (rsum (map (fun p =>
                         cross_entropy
                           (block 1 (fst p)
                              (teacher_probs [0; 0] (4 / 100) (rows demo_teacher)))
                           (block 1 (snd p)
                              (divide (rows demo_student) (student_temp demo_loss))))
                      (pairs 2))
            / INR (2 * 2 - 2),
            st')
    /\ length (pairs 2) = (2 * 2 - 2)%nat
    /\ (forall iq v, In (iq, v) (pairs 2)
                     <-> ((iq < 2)%nat /\ (v < 2)%nat /\ v <> iq)).
Proof.
  apply (forward_cross_view_pairs demo_loss demo_peers demo_student demo_teacher
           0 2 1 2 [0; 0] (4 / 100)).
  - reflexivity.
  - lia.
  - lia.
  - reflexivity.
  - reflexivity.
  - apply demo_rows_ok.
  - apply demo_rows_ok.
  - reflexivity.
  - reflexivity.
  - apply demo_peers_ok.
  - reflexivity.
Defined.

End LossDemo.

(** ** The training loop *)

Section ScheduleFacts.
Import Loss Train.

Variables batch carried : Type.
Variable learn :
  nat -> R -> R -> R -> list R -> list R -> carried -> batch -> R * list R * carried.
Variable dataloader : nat -> nat -> batch.
Variables lr_schedule wd_schedule teacher_temp_schedule : list R.

Lemma global_step_bound (steps no_epoches epoch batch_idx : nat) :
  In epoch (epoch_range no_epoches) ->
  (batch_idx < steps)%nat ->
  ((global_step steps epoch batch_idx < no_epoches * steps)%nat
   <-> (epoch < no_epoches)%nat).
Proof.
  unfold epoch_range, global_step. intros He Hb. apply in_seq in He. split.
  - intros H. destruct (Nat.lt_ge_cases epoch no_epoches) as [Hlt | Hge]; [exact Hlt |].
    assert (epoch = no_epoches) by lia. subst epoch. nia.
  - intros H. nia.
Qed.

Lemma train_step_last_epoch (steps no_epoches : nat) (st : state carried) :
  (length lr_schedule <= no_epoches * steps)%nat ->
  train_step learn steps dataloader lr_schedule wd_schedule teacher_temp_schedule
             no_epoches st 0 = None.
Proof.
  intros Hlen. unfold train_step, global_step.
  replace (nth_error lr_schedule (steps * no_epoches + 0)) with (@None R).
  - reflexivity.
  - symmetry. apply nth_error_None. lia.
Qed.

Lemma train_epoch_last (steps no_epoches : nat) (st : state carried) :
  (length lr_schedule <= no_epoches * steps)%nat ->
  train_epoch learn steps dataloader lr_schedule wd_schedule teacher_temp_schedule
              no_epoches st = None.
Proof.
  intros Hlen. unfold train_epoch.
  pose proof (train_step_last_epoch steps no_epoches st Hlen) as Hstep.
  destruct steps as [| k].
  - simpl. reflexivity.
  - cbn [seq batch_loop]. rewrite Hstep. reflexivity.
Qed.

Lemma run_epochs_failing_last (steps e : nat) (l : list nat) :
  (forall st, train_epoch learn steps dataloader lr_schedule wd_schedule
                          teacher_temp_schedule e st = None) ->
  forall st, run_epochs learn steps dataloader lr_schedule wd_schedule
                        teacher_temp_schedule (l ++ [e]) st = None.
Proof.
  intros He. induction l as [| a l IH]; intros st; simpl.
  - rewrite He. reflexivity.
  - destruct (train_epoch _ _ _ _ _ _ a st) as [st' |]; simpl; [apply IH | reflexivity].
Qed.

(** C4, on the code. With schedules of epochs x steps values and a teacher
    temperature schedule of epochs values, the last epoch of the loop's range
    (epoch = no_epoches) reads [lr_schedule] at the index steps x no_epoches,
    which is the schedule's length, and the temperature schedule at its
    length: the first step of that epoch raises, and so does [run]. *)
Theorem run_last_epoch_out_of_bounds (steps no_epoches : nat)
    (student0 : list R) (extra0 : carried) :
  (1 <= no_epoches)%nat ->
  length lr_schedule = (no_epoches * steps)%nat ->
  length wd_schedule = (no_epoches * steps)%nat ->
  length teacher_temp_schedule = no_epoches ->
  In no_epoches (epoch_range no_epoches)
  /\ global_step steps no_epoches 0 = length lr_schedule
  /\ nth_error lr_schedule (global_step steps no_epoches 0) = None
  /\ nth_error wd_schedule (global_step steps no_epoches 0) = None
  /\ nth_error teacher_temp_schedule no_epoches = None
  /\ (forall st, train_step learn steps dataloader lr_schedule wd_schedule
                            teacher_temp_schedule no_epoches st 0 = None)
  /\ run learn steps dataloader lr_schedule wd_schedule teacher_temp_schedule
         no_epoches student0 extra0 = None.
Proof.
  intros Hn Hlr Hwd Htt.
  assert (Hstep : global_step steps no_epoches 0 = (no_epoches * steps)%nat)
    by (unfold global_step; lia).
  split; [unfold epoch_range; apply in_seq; lia |].
  split; [rewrite Hstep, Hlr; reflexivity |].
  split; [apply nth_error_None; rewrite Hstep, Hlr; lia |].
  split; [apply nth_error_None; rewrite Hstep, Hwd; lia |].
  split; [apply nth_error_None; rewrite Htt; lia |].
  split; [intros st; apply train_step_last_epoch; lia |].
  unfold run, epoch_range.
  replace no_epoches with (S (no_epoches - 1)) at 1 by lia.
  rewrite seq_S. replace (1 + (no_epoches - 1))%nat with no_epoches by lia.
  apply run_epochs_failing_last. intros st. apply train_epoch_last. lia.
Qed.

End ScheduleFacts.

Section ScheduleDemo.
Import Train.

(** Three epochs of two steps: the read at epoch 3, step 0 has index 6. *)
Lemma run_last_epoch_out_of_bounds_witness :
  In 3%nat (epoch_range 3)
  /\ global_step 2 3 0 = length demo_lr_schedule
  /\ nth_error demo_lr_schedule (global_step 2 3 0) = None
  /\ nth_error demo_wd_schedule (global_step 2 3 0) = None
  /\ nth_error demo_temp_schedule 3 = None
  /\ (forall st, train_step demo_learn 2 demo_dataloader demo_lr_schedule
                            demo_wd_schedule demo_temp_schedule 3 st 0 = None)
  /\ run demo_learn 2 demo_dataloader demo_lr_schedule demo_wd_schedule
         demo_temp_schedule 3 [1; 2] tt = None.
Proof.
  apply (run_last_epoch_out_of_bounds unit unit demo_learn demo_dataloader
           demo_lr_schedule demo_wd_schedule demo_temp_schedule 2 3 [1; 2] tt).
  - lia.
  - reflexivity.
  - reflexivity.
  - reflexivity.
Defined.

End ScheduleDemo.

Section MomentumFacts.
Import Loss Train.


Variables batch carried : Type.
Variable learn :
  nat -> R -> R -> R -> list R -> list R -> carried -> batch -> R * list R * carried.
Variable dataloader : nat -> nat -> batch.
Variables lr_schedule wd_schedule teacher_temp_schedule : list R.

(** The optimiser step keeps the number of student parameters. *)
Hypothesis learn_keeps_count :
  forall epoch lr wd temp student teacher x b,
    length (snd (fst (learn epoch lr wd temp student teacher x b))) = length student.






End MomentumFacts.

Section MomentumDemo.
Import Train.


End MomentumDemo.

Section CheckpointFacts.
Import Train.

(** Which epochs of a run get their snapshots written: those whose mean loss
    is below the starting value of [lowest_train_loss] and below the mean loss
    of every earlier epoch. *)
Lemma track_from_saved (losses : list R) :
  forall (start : nat) (c : ckpt) (e : nat),
    In e (saved (track_from start losses c))
    <-> In e (saved c)
        \/ exists i w,
             e = (start + i)%nat
             /\ nth_error losses i = Some w
             /\ w < lowest_train_loss c
             /\ forall j w', (j < i)%nat -> nth_error losses j = Some w' -> w < w'.
Proof.
  induction losses as [| w0 rest IH]; intros start c e.
  - simpl. split; [intros H; left; exact H |].
    intros [H | [i [w [_ [Hn _]]]]]; [exact H | destruct i; discriminate].
  - cbn [track_from]. rewrite IH. unfold epoch_end.
    destruct (Rlt_dec w0 (lowest_train_loss c)) as [Hlt | Hge]; cbn [saved lowest_train_loss].
    + split.
      * intros [Hin | [i [w [He [Hn [Hw Hall]]]]]].
        -- apply in_app_or in Hin. destruct Hin as [Hin | [Hs | []]]; [left; exact Hin |].
           right. exists 0%nat, w0. subst e.
           split; [lia |]. split; [reflexivity |]. split; [exact Hlt |].
           intros j w' Hj. lia.
        -- right. exists (S i), w. split; [lia |]. split; [exact Hn |].
           split; [lra |]. intros [| j] w' Hj Hnj.
           ++ simpl in Hnj. inversion Hnj; subst. exact Hw.
           ++ apply (Hall j w'); [lia | exact Hnj].
      * intros [Hin | [i [w [He [Hn [Hw Hall]]]]]].
        -- left. apply in_or_app. left. exact Hin.
        -- destruct i as [| i].
           ++ left. apply in_or_app. right. left. lia.
           ++ right. exists i, w. split; [lia |]. split; [exact Hn |].
              split; [apply (Hall 0%nat w0); [lia | reflexivity] |].
              intros j w' Hj Hnj. apply (Hall (S j) w'); [lia | exact Hnj].
    + split.
      * intros [Hin | [i [w [He [Hn [Hw Hall]]]]]]; [left; exact Hin |].
        right. exists (S i), w. split; [lia |]. split; [exact Hn |].
        split; [exact Hw |]. intros [| j] w' Hj Hnj.
        -- simpl in Hnj. inversion Hnj; subst. lra.
        -- apply (Hall j w'); [lia | exact Hnj].
      * intros [Hin | [i [w [He [Hn [Hw Hall]]]]]]; [left; exact Hin |].
        destruct i as [| i].
        -- simpl in Hn. inversion Hn; subst. lra.
        -- right. exists i, w. split; [lia |]. split; [exact Hn |].
           split; [exact Hw |].
           intros j w' Hj Hnj. apply (Hall (S j) w'); [lia | exact Hnj].
Qed.

(** X1. Epoch [e] (counted from 1) is persisted exactly when its mean loss is
    below 10 and below the mean loss of every earlier epoch. *)
Lemma track_saved_iff (losses : list R) (i : nat) (w : R) :
  nth_error losses i = Some w ->
  (In (S i) (saved (track losses))
   <-> w < 10
       /\ forall j w', (j < i)%nat -> nth_error losses j = Some w' -> w < w').
Proof.
  intros Hn. unfold track. rewrite track_from_saved. simpl. split.
  - intros [[] | [i' [w1 [He [Hn1 [Hw Hall]]]]]].
    assert (i' = i) by lia. subst i'. rewrite Hn in Hn1. inversion Hn1; subst.
    split; assumption.
  - intros [Hw Hall]. right. exists i, w. repeat split; assumption.
Qed.

(** C8, on the code. A first epoch whose mean loss is 12 is lower than every
    previous epoch (there is none), yet no snapshot is written: the running
    minimum starts at 10, not above every loss. *)
Theorem first_epoch_above_ten_not_saved :
  saved (track [12]) = []
  /\ lowest_train_loss (track [12]) = 10
  /\ (forall j w', (j < 0)%nat -> nth_error [12] j = Some w' -> 12 < w').
Proof.
  unfold track, ckpt_init. cbn [track_from]. unfold epoch_end.
  cbn [lowest_train_loss saved].
  destruct (Rlt_dec 12 10) as [H | _]; [lra |].
  split; [reflexivity |]. split; [reflexivity |].
  intros j w' Hj. lia.
Qed.

End CheckpointFacts.

(** * Further properties of the code *)

(** ** The training loop: checkpoints, schedule reads, momentum update *)

Section CheckpointMore.
Import Train.

(** Four epochs with mean losses 12, 9, 9.5 and 8: the fourth is persisted. *)
Lemma track_saved_iff_witness :
  In 4%nat (saved (track [12; 9; 95 / 10; 8]))
  <-> 8 < 10
      /\ forall j w', (j < 3)%nat ->
           nth_error [12; 9; 95 / 10; 8] j = Some w' -> 8 < w'.
Proof.
  apply (track_saved_iff [12; 9; 95 / 10; 8] 3 8). reflexivity.
Defined.

Lemma track_from_lowest (losses : list R) :
  forall (start : nat) (c : ckpt),
    lowest_train_loss (track_from start losses c)
    = fold_left Rmin losses (lowest_train_loss c).
Proof.
  induction losses as [| w rest IH]; intros start c; [reflexivity |].
  cbn [track_from fold_left]. rewrite IH. f_equal.
  unfold epoch_end, Rmin.
  destruct (Rlt_dec w (lowest_train_loss c)); destruct (Rle_dec (lowest_train_loss c) w);
    cbn [lowest_train_loss]; lra.
Qed.

Lemma fold_Rmin_le (losses : list R) :
  forall x : R,
    fold_left Rmin losses x <= x
    /\ forall w, In w losses -> fold_left Rmin losses x <= w.
Proof.
  induction losses as [| w0 rest IH]; intros x.
  - simpl. split; [lra | tauto].
  - cbn [fold_left]. destruct (IH (Rmin x w0)) as [Hx Hall].
    pose proof (Rmin_l x w0). pose proof (Rmin_r x w0).
    split; [lra |]. intros w [Hw | Hw]; [subst w; lra | apply Hall; exact Hw].
Qed.

(** X2. After any sequence of epochs [lowest_train_loss] is the minimum of 10
    and the epochs' mean losses: never above 10, never above a loss seen. *)
Theorem track_lowest_is_minimum (losses : list R) :
  lowest_train_loss (track losses) = fold_left Rmin losses 10
  /\ lowest_train_loss (track losses) <= 10
  /\ forall w, In w losses -> lowest_train_loss (track losses) <= w.
Proof.
  unfold track. rewrite track_from_lowest. cbn [ckpt_init lowest_train_loss].
  split; [reflexivity |]. apply fold_Rmin_le.
Qed.

End CheckpointMore.

Section MomentumMore.
Import Train.

(** X3. The momentum update keeps the teacher's parameter count whatever the
    student's is, and leaves the teacher parameters past the student's last one
    untouched ([zip] stops at the shorter list). *)
Theorem ema_zip_truncation (mu : R) (stu tea : list R) :
  length (ema mu stu tea) = length tea
  /\ skipn (length stu) (ema mu stu tea) = skipn (length stu) tea.
Proof.
  revert stu. induction tea as [| k ks IH]; intros stu.
  - destruct stu; simpl; split; reflexivity.
  - destruct stu as [| q qs]; [simpl; split; reflexivity |].
    destruct (IH qs) as [Hl Hs]. simpl. split; [rewrite Hl; reflexivity | exact Hs].
Qed.

Lemma m_unit : 0 <= m <= 1.
Proof. unfold m. lra. Qed.

(** X4. With the loop's momentum m = 0.996 every updated teacher parameter
    lies between its old value and the student's value, and a teacher equal
    to the student is left as it is. *)
Theorem ema_between (stu tea : list R) :
  length tea = length stu ->
  (forall i, (i < length tea)%nat ->
     Rmin (nth i tea 0) (nth i stu 0) <= nth i (ema m stu tea) 0
     /\ nth i (ema m stu tea) 0 <= Rmax (nth i tea 0) (nth i stu 0))
  /\ ema m stu stu = stu.
Proof.
  intros Hlen. split.
  - revert stu Hlen. induction tea as [| k ks IH]; intros stu Hlen i Hi.
    + simpl in Hi. lia.
    + destruct stu as [| q qs]; [simpl in Hlen; lia |].
      destruct i as [| i].
      * simpl. pose proof m_unit as Hm. unfold Rmin, Rmax.
        destruct (Rle_dec k q); split; nra.
      * simpl. apply IH; simpl in *; lia.
  - clear Hlen tea. induction stu as [| q qs IH]; [reflexivity |].
    simpl. rewrite IH. f_equal. ring.
Qed.

Lemma ema_between_witness :
  (forall i, (i < length [1; 5])%nat ->
     Rmin (nth i [1; 5] 0) (nth i [3; 2] 0) <= nth i (ema m [3; 2] [1; 5]) 0
     /\ nth i (ema m [3; 2] [1; 5]) 0 <= Rmax (nth i [1; 5] 0) (nth i [3; 2] 0))
  /\ ema m [3; 2] [3; 2] = [3; 2].
Proof.
  apply (ema_between [3; 2] [1; 5]). reflexivity.
Defined.

End MomentumMore.

Section ScheduleMore.
Import Loss Train.

Variables batch carried : Type.
Variable learn :
  nat -> R -> R -> R -> list R -> list R -> carried -> batch -> R * list R * carried.
Variable dataloader : nat -> nat -> batch.
Variables lr_schedule wd_schedule teacher_temp_schedule : list R.

Lemma nth_error_in_bounds {A : Type} (l : list A) (i : nat) :
  (i < length l)%nat -> exists x, nth_error l i = Some x.
Proof.
  intros H. destruct (nth_error l i) as [x |] eqn:E; [exists x; reflexivity |].
  apply nth_error_None in E. lia.
Qed.

Lemma train_step_in_bounds (steps no_epoches epoch batch_idx : nat)
    (st : state carried) :
  length lr_schedule = (no_epoches * steps)%nat ->
  length wd_schedule = (no_epoches * steps)%nat ->
  length teacher_temp_schedule = no_epoches ->
  (epoch < no_epoches)%nat ->
  (batch_idx < steps)%nat ->
  exists r, train_step learn steps dataloader lr_schedule wd_schedule
                       teacher_temp_schedule epoch st batch_idx = Some r.
Proof.
  intros Hlr Hwd Htt He Hb. unfold train_step, global_step.
  destruct (nth_error_in_bounds lr_schedule (steps * epoch + batch_idx)) as [x Hx];
    [rewrite Hlr; nia |].
  destruct (nth_error_in_bounds wd_schedule (steps * epoch + batch_idx)) as [y Hy];
    [rewrite Hwd; nia |].
  destruct (nth_error_in_bounds teacher_temp_schedule epoch) as [z Hz];
    [rewrite Htt; lia |].
  rewrite Hx, Hy, Hz. cbn [bind].
  destruct (learn epoch x y z (student st) (teacher st) (extra st)
                  (dataloader epoch batch_idx)) as [[l s'] x'].
  eexists. reflexivity.
Qed.

Lemma batch_loop_in_bounds (steps no_epoches epoch : nat) (idxs : list nat) :
  length lr_schedule = (no_epoches * steps)%nat ->
  length wd_schedule = (no_epoches * steps)%nat ->
  length teacher_temp_schedule = no_epoches ->
  (epoch < no_epoches)%nat ->
  (forall b, In b idxs -> (b < steps)%nat) ->
  forall (st : state carried) (train_loss : R),
    exists r, batch_loop learn steps dataloader lr_schedule wd_schedule
                         teacher_temp_schedule epoch idxs st train_loss = Some r.
Proof.
  intros Hlr Hwd Htt He. induction idxs as [| b idxs IH]; intros Hidx st tl.
  - eexists. reflexivity.
  - destruct (train_step_in_bounds steps no_epoches epoch b st Hlr Hwd Htt He)
      as [r Hr]; [apply Hidx; left; reflexivity |].
    cbn [batch_loop]. rewrite Hr. cbn [bind].
    apply IH. intros b' Hb'. apply Hidx. right. exact Hb'.
Qed.

Lemma run_epochs_in_bounds (steps no_epoches : nat) (epochs : list nat) :
  (1 <= steps)%nat ->
  length lr_schedule = (no_epoches * steps)%nat ->
  length wd_schedule = (no_epoches * steps)%nat ->
  length teacher_temp_schedule = no_epoches ->
  (forall e, In e epochs -> (e < no_epoches)%nat) ->
  forall st : state carried,
    exists st', run_epochs learn steps dataloader lr_schedule wd_schedule
                           teacher_temp_schedule epochs st = Some st'.
Proof.
  intros Hs Hlr Hwd Htt. induction epochs as [| e epochs IH]; intros Hep st.
  - eexists. reflexivity.
  - cbn [run_epochs]. unfold train_epoch.
    destruct (batch_loop_in_bounds steps no_epoches e (seq 0 steps) Hlr Hwd Htt)
      with (st := st) (train_loss := 0) as [r Hr].
    + apply Hep. left. reflexivity.
    + intros b Hb. apply in_seq in Hb. lia.
    + rewrite Hr. cbn [bind]. destruct steps as [| k]; [lia |]. cbn [bind].
      apply IH. intros e' He'. apply Hep. right. exact He'.
Qed.

(** X5. With at least one batch per epoch and schedules of epochs x steps
    values (epochs temperature values), the loop runs every epoch but its last
    without a failing schedule read; and since epochs count from 1, no read
    ever uses the first steps entries of the learning-rate and weight-decay
    schedules (the start of the warm-up). *)
Theorem run_all_but_last_epoch (steps no_epoches : nat)
    (student0 : list R) (extra0 : carried) :
  (1 <= steps)%nat ->
  length lr_schedule = (no_epoches * steps)%nat ->
  length wd_schedule = (no_epoches * steps)%nat ->
  length teacher_temp_schedule = no_epoches ->
  (exists st', run_epochs learn steps dataloader lr_schedule wd_schedule
                          teacher_temp_schedule (epoch_range (no_epoches - 1))
                          (init_state student0 extra0) = Some st')
  /\ (forall epoch batch_idx,
        In epoch (epoch_range no_epoches) ->
        (steps <= global_step steps epoch batch_idx)%nat).
Proof.
  intros Hs Hlr Hwd Htt. split.
  - apply (run_epochs_in_bounds steps no_epoches); try assumption.
    intros e He. unfold epoch_range in He. apply in_seq in He. lia.
  - intros epoch b He. unfold epoch_range in He. apply in_seq in He.
    unfold global_step. nia.
Qed.

End ScheduleMore.

Section ScheduleMoreDemo.
Import Train.

Lemma run_all_but_last_epoch_witness :
  (exists st', run_epochs demo_learn 2 demo_dataloader demo_lr_schedule
                          demo_wd_schedule demo_temp_schedule (epoch_range (3 - 1))
                          (init_state [1; 2] tt) = Some st')
  /\ (forall epoch batch_idx,
        In epoch (epoch_range 3) -> (2 <= global_step 2 epoch batch_idx)%nat).
Proof.
  apply (run_all_but_last_epoch unit unit demo_learn demo_dataloader
           demo_lr_schedule demo_wd_schedule demo_temp_schedule 2 3 [1; 2] tt).
  - lia.
  - reflexivity.
  - reflexivity.
  - reflexivity.
Defined.

End ScheduleMoreDemo.

(** ** The truncated-normal initialiser: what the clamp does *)

Section ErfContinuity.
Import Numeric TruncNormal.

Lemma gauss_le_1 (t : R) : gauss t <= 1.
Proof.
  unfold gauss. rewrite <- exp_0.
  pose proof (Rle_0_sqr t) as Ht. unfold Rsqr in Ht.
  destruct (Req_dec (t * t) 0) as [H0 | Hn].
  - rewrite H0, Ropp_0. lra.
  - left. apply exp_increasing. lra.
Qed.

Lemma erf_growth (x y : R) :
  x <= y -> erf y - erf x <= 2 / sqrt PI * (y - x).
Proof.
  intros Hxy. unfold erf.
  pose proof (RiemannInt_P26 (gauss_integrable 0 x) (gauss_integrable x y)
                (gauss_integrable 0 y)) as Hch.
  pose proof (RiemannInt_P19 (gauss_integrable x y) (RiemannInt_P14 x y 1) Hxy) as Hle.
  rewrite RiemannInt_P15 in Hle.
  assert (Hb : RiemannInt (gauss_integrable x y) <= 1 * (y - x)).
  { apply Hle. intros t _. unfold fct_cte. apply gauss_le_1. }
  pose proof two_over_sqrt_pi_pos as Hc.
  replace (2 / sqrt PI * RiemannInt (gauss_integrable 0 y)
           - 2 / sqrt PI * RiemannInt (gauss_integrable 0 x))
    with (2 / sqrt PI * RiemannInt (gauss_integrable x y)) by (rewrite <- Hch; ring).
  apply Rmult_le_compat_l; lra.
Qed.

Lemma erf_dist (x y : R) : Rabs (erf y - erf x) <= 2 / sqrt PI * Rabs (y - x).
Proof.
  destruct (Rle_lt_dec x y) as [Hxy | Hyx].
  - rewrite (Rabs_right (y - x)) by lra.
    rewrite Rabs_right; [apply erf_growth; exact Hxy |].
    pose proof (erf_monotone x y Hxy). lra.
  - rewrite (Rabs_left (y - x)) by lra.
    pose proof (erf_increasing y x Hyx).
    rewrite Rabs_left by lra.
    pose proof (erf_growth y x (Rlt_le _ _ Hyx)). lra.
Qed.

Lemma erf_continuity : continuity erf.
Proof.
  intros x eps Heps. pose proof two_over_sqrt_pi_pos as Hc.
  exists (eps / (2 / sqrt PI)). split.
  - apply Rdiv_lt_0_compat; lra.
  - intros y [_ Hd]. simpl in *. unfold Rdist in *.
    apply Rle_lt_trans with (2 / sqrt PI * Rabs (y - x)); [apply erf_dist |].
    apply Rmult_lt_reg_r with (/ (2 / sqrt PI)); [apply Rinv_0_lt_compat; lra |].
    assert (Hsp : sqrt PI <> 0) by (apply Rgt_not_eq, sqrt_lt_R0, PI_RGT_0).
    replace (2 / sqrt PI * Rabs (y - x) * / (2 / sqrt PI)) with (Rabs (y - x))
      by (field; repeat split; first [exact Hsp | lra]).
    exact Hd.
Qed.

(** Between two values of [erf], [erfinv] lands between their arguments. *)
Lemma erfinv_between (x y t : R) :
  x <= y -> erf x <= t <= erf y -> x <= erfinv t <= y.
Proof.
  intros Hxy [Hx Hy].
  destruct (IVT_cor (erf - fct_cte t)%F x y) as [z [Hz Hfz]].
  - apply continuity_minus; [apply erf_continuity |].
    apply continuity_const. intros u v. reflexivity.
  - exact Hxy.
  - unfold minus_fct, fct_cte.
    assert (H1 : erf x - t <= 0) by lra. assert (H2 : 0 <= erf y - t) by lra.
    replace ((erf x - t) * (erf y - t)) with (- ((t - erf x) * (erf y - t))) by ring.
    assert (0 <= (t - erf x) * (erf y - t)) by (apply Rmult_le_pos; lra). lra.
  - unfold minus_fct, fct_cte in Hfz.
    replace t with (erf z) by lra. rewrite erfinv_erf. exact Hz.
Qed.

(** X7. For a positive [std], a <= b and unit draws between 0 and 1, the
    inverse-CDF transform alone already puts every entry between a and b (the
    final clamp changes nothing); the draw 0 is sent to a and the upper end 1
    of the draws to b. *)
Theorem trunc_normal_clamp_idle (rs : list R) (mean std a b : R) :
  0 < std -> a <= b ->
  Forall (fun r => 0 <= r <= 1) rs ->
  let lo := 2 * norm_cdf ((a - mean) / std) - 1 in
  let hi := 2 * norm_cdf ((b - mean) / std) - 1 in
  snd (_no_grad_trunc_normal_ rs mean std a b)
  = Some (map (fun r => erfinv (lo + r * (hi - lo)) * (std * sqrt 2) + mean) rs)
  /\ Forall (fun r => a <= erfinv (lo + r * (hi - lo)) * (std * sqrt 2) + mean <= b) rs
  /\ snd (_no_grad_trunc_normal_ [0; 1] mean std a b) = Some [a; b].
Proof.
  intros Hstd Hab Hrs lo hi.
  pose proof sqrt2_pos as Hs.
  assert (Hdiv : (a - mean) / std / sqrt 2 <= (b - mean) / std / sqrt 2).
  { unfold Rdiv. apply Rmult_le_compat_r; [left; apply Rinv_0_lt_compat; lra |].
    apply Rmult_le_compat_r; [left; apply Rinv_0_lt_compat; lra | lra]. }
  assert (Hin : Forall (fun r => a <= erfinv (lo + r * (hi - lo)) * (std * sqrt 2) + mean
                                 <= b) rs).
  { apply Forall_forall. intros r Hr.
    pose proof (proj1 (Forall_forall _ rs) Hrs r Hr) as [Hr0 Hr1].
    unfold lo, hi. rewrite !two_norm_cdf.
    set (ea := erf ((a - mean) / std / sqrt 2)).
    set (eb := erf ((b - mean) / std / sqrt 2)).
    assert (Hea : ea <= eb) by (apply erf_monotone; exact Hdiv).
    destruct (erfinv_between ((a - mean) / std / sqrt 2) ((b - mean) / std / sqrt 2)
                (ea + r * (eb - ea)) Hdiv) as [Hz1 Hz2].
    { fold ea eb. split; nra. }
    set (z := erfinv (ea + r * (eb - ea))) in *.
    assert (Hk : 0 < std * sqrt 2) by (apply Rmult_lt_0_compat; lra).
    assert (Ha : a = (a - mean) / std / sqrt 2 * (std * sqrt 2) + mean) by (field; lra).
    assert (Hb : b = (b - mean) / std / sqrt 2 * (std * sqrt 2) + mean) by (field; lra).
    split.
    - rewrite Ha at 1. apply Rplus_le_compat_r. apply Rmult_le_compat_r; lra.
    - rewrite Hb at 1. apply Rplus_le_compat_r. apply Rmult_le_compat_r; lra. }
  split; [| split; [exact Hin |]].
  - rewrite (trunc_normal_returns rs mean std a b Hstd Hab). cbn [snd]. f_equal.
    apply map_ext_in. intros r Hr. unfold transform. fold lo hi.
    apply clamp_inside. apply (proj1 (Forall_forall _ rs) Hin r Hr).
  - rewrite (trunc_normal_returns [0; 1] mean std a b Hstd Hab).
    cbn [snd map]. unfold transform. rewrite !two_norm_cdf.
    replace (erf ((a - mean) / std / sqrt 2)
             + 0 * (erf ((b - mean) / std / sqrt 2) - erf ((a - mean) / std / sqrt 2)))
      with (erf ((a - mean) / std / sqrt 2)) by ring.
    replace (erf ((a - mean) / std / sqrt 2)
             + 1 * (erf ((b - mean) / std / sqrt 2) - erf ((a - mean) / std / sqrt 2)))
      with (erf ((b - mean) / std / sqrt 2)) by ring.
    rewrite !erfinv_erf.
    replace ((a - mean) / std / sqrt 2 * (std * sqrt 2) + mean) with a by (field; lra).
    replace ((b - mean) / std / sqrt 2 * (std * sqrt 2) + mean) with b by (field; lra).
    rewrite !clamp_inside by lra. reflexivity.
Qed.

End ErfContinuity.

Section TruncNormalMoreDemo.
Import Numeric TruncNormal.

(** The head's setting (mean 0, std 0.02, cut-offs -2 and 2) on three draws. *)
Lemma trunc_normal_clamp_idle_witness :
  let lo := 2 * norm_cdf ((-2 - 0) / (2 / 100)) - 1 in
  let hi := 2 * norm_cdf ((2 - 0) / (2 / 100)) - 1 in
  snd (_no_grad_trunc_normal_ [0; 1 / 2; 1] 0 (2 / 100) (-2) 2)
  = Some (map (fun r => erfinv (lo + r * (hi - lo)) * (2 / 100 * sqrt 2) + 0)
              [0; 1 / 2; 1])
  /\ Forall (fun r => -2 <= erfinv (lo + r * (hi - lo)) * (2 / 100 * sqrt 2) + 0 <= 2)
            [0; 1 / 2; 1]
  /\ snd (_no_grad_trunc_normal_ [0; 1] 0 (2 / 100) (-2) 2) = Some [-2; 2].
Proof.
  apply (trunc_normal_clamp_idle [0; 1 / 2; 1] 0 (2 / 100) (-2) 2).
  - lra.
  - lra.
  - repeat constructor; lra.
Defined.

End TruncNormalMoreDemo.

(** ** The projection head: the layers [__init__] builds *)

Section HeadMore.
Import Head.

Lemma widths_through_app (w : nat) (a b : list layer) :
  widths_through w (a ++ b)
  = match widths_through w a with
    | Some w' => widths_through w' b
    | None => None
    end.
Proof.
  revert w. induction a as [| l a IH]; intros w; simpl; [reflexivity |].
  destruct (layer_out w l); [apply IH | reflexivity].
Qed.

Lemma hidden_block_width (use_bn : bool) (hidden_dim : nat) :
  widths_through hidden_dim (hidden_block use_bn hidden_dim) = Some hidden_dim.
Proof.
  unfold hidden_block. destruct use_bn; simpl; rewrite !Nat.eqb_refl; reflexivity.
Qed.

Lemma hidden_blocks_width (use_bn : bool) (hidden_dim k : nat) :
  widths_through hidden_dim (concat (repeat (hidden_block use_bn hidden_dim) k))
  = Some hidden_dim.
Proof.
  induction k as [| k IH]; [reflexivity |].
  cbn [repeat concat]. rewrite widths_through_app, hidden_block_width. exact IH.
Qed.

Lemma hidden_blocks_count (p : layer -> bool) (use_bn : bool) (hidden_dim k : nat) :
  length (filter p (concat (repeat (hidden_block use_bn hidden_dim) k)))
  = (k * length (filter p (hidden_block use_bn hidden_dim)))%nat.
Proof.
  induction k as [| k IH]; [reflexivity |].
  cbn [repeat concat]. rewrite filter_app, length_app, IH. lia.
Qed.

(** X8. For every requested layer count the [mlp] that [__init__] builds takes
    rows of width in_dim to rows of width bottleneck_dim without a width
    mismatch between consecutive layers, and with n = max(nlayers, 1) it has n
    linear layers, n - 1 GELUs and, when [use_bn] is set, n - 1 batch norms
    (none otherwise). *)
Theorem build_mlp_shapes (in_dim : nat) (use_bn : bool) (nlayers : Z)
    (hidden_dim bottleneck_dim : nat) :
  let layers := layers_of (build_mlp in_dim use_bn nlayers hidden_dim bottleneck_dim) in
  let n := Z.to_nat (Z.max nlayers 1) in
  widths_through in_dim layers = Some bottleneck_dim
  /\ length (filter is_linear layers) = n
  /\ length (filter is_gelu layers) = (n - 1)%nat
  /\ length (filter is_batchnorm layers) = (if use_bn then n - 1 else 0)%nat.
Proof.
  intros layers n. unfold layers, build_mlp.
  destruct (Z.max nlayers 1 =? 1)%Z eqn:E.
  - apply Z.eqb_eq in E. unfold n. rewrite E. simpl.
    rewrite Nat.eqb_refl. destruct use_bn; repeat split; reflexivity.
  - apply Z.eqb_neq in E. cbn [layers_of].
    set (k := Z.to_nat (Z.max nlayers 1 - 2)).
    assert (Hn : n = S (S k)) by (unfold n, k; lia).
    rewrite Hn. clearbody k. split; [| split; [| split]].
    + replace ([Linear in_dim hidden_dim]
                ++ (if use_bn then [BatchNorm1d hidden_dim] else [])
                ++ [GELU]
                ++ concat (repeat (hidden_block use_bn hidden_dim) k)
                ++ [Linear hidden_dim bottleneck_dim])
        with (([Linear in_dim hidden_dim]
                 ++ (if use_bn then [BatchNorm1d hidden_dim] else []) ++ [GELU])
                ++ concat (repeat (hidden_block use_bn hidden_dim) k)
                ++ [Linear hidden_dim bottleneck_dim])
        by (rewrite <- !app_assoc; reflexivity).
      rewrite widths_through_app.
      replace (widths_through in_dim
                 ([Linear in_dim hidden_dim]
                    ++ (if use_bn then [BatchNorm1d hidden_dim] else []) ++ [GELU]))
        with (Some hidden_dim)
        by (destruct use_bn; simpl; rewrite !Nat.eqb_refl; reflexivity).
      rewrite widths_through_app, hidden_blocks_width.
      simpl. rewrite Nat.eqb_refl. reflexivity.
    + rewrite !filter_app, !length_app, hidden_blocks_count.
      destruct use_bn; simpl; lia.
    + rewrite !filter_app, !length_app, hidden_blocks_count.
      destruct use_bn; simpl; lia.
    + rewrite !filter_app, !length_app, hidden_blocks_count.
      destruct use_bn; simpl; lia.
Qed.

End HeadMore.

(** ** The distillation loss: its schedule, its sign, its centre over time *)

Section TempScheduleFacts.
Import Loss.

Lemma linspace_length (start stop : R) (num : nat) :
  length (linspace start stop num) = num.
Proof.
  destruct num as [| [| n]]; simpl; try reflexivity.
  rewrite length_map, length_seq. reflexivity.
Qed.

Lemma linspace_nth (start stop : R) (num i : nat) :
  (2 <= num)%nat -> (i < num)%nat ->
  nth_error (linspace start stop num) i
  = Some (start + INR i * ((stop - start) / INR (num - 1))).
Proof.
  intros Hnum Hi. destruct num as [| [| n]]; try lia.
  unfold linspace. rewrite nth_error_map, nth_error_seq.
  destruct (Nat.ltb_spec i (S (S n))); [reflexivity | lia].
Qed.

Lemma linspace_first (start stop : R) (num : nat) :
  (1 <= num)%nat -> nth_error (linspace start stop num) 0 = Some start.
Proof.
  intros Hnum. destruct num as [| [| n]]; [lia | reflexivity |].
  rewrite linspace_nth by lia. f_equal. simpl INR at 1. ring.
Qed.

Lemma linspace_last (start stop : R) (num : nat) :
  (2 <= num)%nat -> nth_error (linspace start stop num) (num - 1) = Some stop.
Proof.
  intros Hnum. rewrite linspace_nth by lia. f_equal.
  assert (INR (num - 1) <> 0) by (apply not_0_INR; lia).
  field. assumption.
Qed.

Lemma linspace_flat (start : R) (num i : nat) :
  (i < num)%nat -> nth_error (linspace start start num) i = Some start.
Proof.
  intros Hi. destruct num as [| [| n]]; [lia | |].
  - destruct i; [reflexivity | lia].
  - rewrite linspace_nth by lia. f_equal. unfold Rdiv. ring.
Qed.

(** X9. [DINOLoss.__init__] raises when the warm-up is longer than the run and
    otherwise starts from a zero centre of one row and out_dim columns and a
    temperature schedule of exactly nepochs values: the warm-up temperature
    first, the target temperature at the last warm-up epoch and at every epoch
    after the warm-up, and the target temperature throughout when the two
    temperatures are equal. *)
Theorem DINOLoss_init_schedule (out_dim crops : nat)
    (warmup_teacher_temp teacher_temp : R)
    (warmup_teacher_temp_epochs nepochs : nat) (stemp cmom : R) :
  ((nepochs < warmup_teacher_temp_epochs)%nat ->
   DINOLoss_init out_dim crops warmup_teacher_temp teacher_temp
                 warmup_teacher_temp_epochs nepochs stemp cmom = None)
  /\ ((warmup_teacher_temp_epochs <= nepochs)%nat ->
      exists st,
        DINOLoss_init out_dim crops warmup_teacher_temp teacher_temp
                      warmup_teacher_temp_epochs nepochs stemp cmom = Some st
        /\ center st = [repeat 0 out_dim]
        /\ length (teacher_temp_schedule st) = nepochs
        /\ (forall e, (warmup_teacher_temp_epochs <= e < nepochs)%nat ->
              nth_error (teacher_temp_schedule st) e = Some teacher_temp)
        /\ ((1 <= warmup_teacher_temp_epochs)%nat ->
            nth_error (teacher_temp_schedule st) 0 = Some warmup_teacher_temp)
        /\ ((2 <= warmup_teacher_temp_epochs)%nat ->
            nth_error (teacher_temp_schedule st) (warmup_teacher_temp_epochs - 1)
            = Some teacher_temp)
        /\ (warmup_teacher_temp = teacher_temp ->
            forall e, (e < nepochs)%nat ->
              nth_error (teacher_temp_schedule st) e = Some teacher_temp)).
Proof.
  unfold DINOLoss_init. split.
  - intros H. destruct (Nat.leb_spec warmup_teacher_temp_epochs nepochs); [lia | reflexivity].
  - intros H. destruct (Nat.leb_spec warmup_teacher_temp_epochs nepochs); [| lia].
    eexists. split; [reflexivity |]. cbn [center teacher_temp_schedule].
    set (w := warmup_teacher_temp_epochs) in *.
    assert (Htail : forall e, (w <= e < nepochs)%nat ->
              nth_error (linspace warmup_teacher_temp teacher_temp w
                           ++ map (fun one => one * teacher_temp) (repeat 1 (nepochs - w))) e
              = Some teacher_temp).
    { intros e He. rewrite nth_error_app2 by (rewrite linspace_length; lia).
      rewrite linspace_length, nth_error_map.
      rewrite (nth_error_repeat 1) by lia. simpl. f_equal. ring. }
    split; [reflexivity |]. split.
    { rewrite length_app, linspace_length, length_map, repeat_length. lia. }
    split; [exact Htail |]. split.
    { intros Hw. rewrite nth_error_app1 by (rewrite linspace_length; lia).
      apply linspace_first. exact Hw. }
    split.
    { intros Hw. rewrite nth_error_app1 by (rewrite linspace_length; lia).
      apply linspace_last. exact Hw. }
    intros Heq e He. destruct (Nat.lt_ge_cases e w) as [Hlt | Hge].
    + rewrite nth_error_app1 by (rewrite linspace_length; lia).
      rewrite Heq. apply linspace_flat. exact Hlt.
    + apply Htail. lia.
Qed.

End TempScheduleFacts.

Section TempScheduleDemo.
Import Loss.

(** The setting of [run]: 30 warm-up epochs out of 301, both temperatures 0.04. *)
Lemma DINOLoss_init_schedule_witness :
  exists st,
    DINOLoss_init 8 10 (4 / 100) (4 / 100) 30 301 (1 / 10) (9 / 10) = Some st
    /\ center st = [repeat 0 8]
    /\ length (teacher_temp_schedule st) = 301%nat
    /\ (forall e, (30 <= e < 301)%nat ->
          nth_error (teacher_temp_schedule st) e = Some (4 / 100))
    /\ ((1 <= 30)%nat -> nth_error (teacher_temp_schedule st) 0 = Some (4 / 100))
    /\ ((2 <= 30)%nat -> nth_error (teacher_temp_schedule st) (30 - 1) = Some (4 / 100))
    /\ (4 / 100 = 4 / 100 ->
        forall e, (e < 301)%nat ->
          nth_error (teacher_temp_schedule st) e = Some (4 / 100)).
Proof.
  apply (proj2 (DINOLoss_init_schedule 8 10 (4 / 100) (4 / 100) 30 301
                  (1 / 10) (9 / 10))).
  lia.
Defined.

End TempScheduleDemo.

Section SignFacts.
Import Loss.

Lemma rsum_exp_ge (v : vec) (x : R) : In x v -> exp x <= rsum (map exp v).
Proof.
  induction v as [| y v IH]; intros Hx; [destruct Hx |].
  simpl. assert (Hpos : 0 <= rsum (map exp v)).
  { clear. induction v as [| z v IH]; simpl; [lra |].
    pose proof (exp_pos z). lra. }
  destruct Hx as [Hx | Hx].
  - subst y. lra.
  - pose proof (IH Hx). pose proof (exp_pos y). lra.
Qed.

Lemma rsum_nonneg (l : list R) : (forall x, In x l -> 0 <= x) -> 0 <= rsum l.
Proof.
  induction l as [| y l IH]; intros H; simpl; [lra |].
  pose proof (H y (or_introl eq_refl)).
  assert (0 <= rsum l) by (apply IH; intros x Hx; apply H; right; exact Hx). lra.
Qed.

Lemma softmax_positive (v : vec) (y : R) : In y (softmax v) -> 0 < y.
Proof.
  unfold softmax. intros Hy. apply in_map_iff in Hy. destruct Hy as [x [Hx Hin]].
  subst y. pose proof (rsum_exp_ge v x Hin). pose proof (exp_pos x).
  apply Rdiv_lt_0_compat; lra.
Qed.

Lemma softmax_sums_to_one (v : vec) : v <> [] -> rsum (softmax v) = 1.
Proof.
  intros Hv. unfold softmax.
  assert (Hs : 0 < rsum (map exp v)).
  { destruct v as [| x v]; [congruence |].
    pose proof (rsum_exp_ge (x :: v) x (or_introl eq_refl)). pose proof (exp_pos x). lra. }
  assert (Hd : forall (l : vec) (s : R),
             rsum (map (fun x => exp x / s) l) = rsum (map exp l) / s).
  { intros l s. induction l as [| x l IH]; simpl.
    - unfold Rdiv. ring.
    - rewrite IH. unfold Rdiv. ring. }
  rewrite Hd. field. lra.
Qed.

Lemma log_softmax_nonpos (v : vec) (y : R) : In y (log_softmax v) -> y <= 0.
Proof.
  unfold log_softmax. intros Hy. apply in_map_iff in Hy. destruct Hy as [x [Hx Hin]].
  subst y. pose proof (rsum_exp_ge v x Hin) as Hge. pose proof (exp_pos x) as Hp.
  assert (x <= ln (rsum (map exp v))).
  { rewrite <- (ln_exp x) at 1. destruct Hge as [Hlt | Heq].
    - left. apply ln_increasing; assumption.
    - rewrite Heq. lra. }
  lra.
Qed.

End SignFacts.

Section LossSign.
Import Loss.

Lemma mapM_in {A B : Type} (f : A -> option B) (l : list A) :
  forall (l' : list B) (z : B),
    mapM f l = Some l' -> In z l' -> exists x, In x l /\ f x = Some z.
Proof.
  induction l as [| x l IH]; intros l' z H Hz; simpl in H.
  - inversion H; subst. destruct Hz.
  - destruct (f x) as [y |] eqn:Hy; simpl in H; [| discriminate].
    destruct (mapM f l) as [ys |] eqn:Hys; simpl in H; [| discriminate].
    inversion H; subst. destruct Hz as [Hz | Hz].
    + subst z. exists x. split; [left; reflexivity | exact Hy].
    + destruct (IH ys z eq_refl Hz) as [x' [Hin Hf]].
      exists x'. split; [right; exact Hin | exact Hf].
Qed.

Lemma bcast_in {A B : Type} (f : A -> A -> option B) (a b : list A)
    (l : list B) (z : B) :
  bcast f a b = Some l -> In z l ->
  exists x y, In x a /\ In y b /\ f x y = Some z.
Proof.
  unfold bcast. intros H Hz.
  destruct (length a =? length b)%nat.
  - destruct (mapM_in _ _ l z H Hz) as [[x y] [Hin Hf]].
    exists x, y. split; [apply (in_combine_l _ _ _ _ Hin) |].
    split; [apply (in_combine_r _ _ _ _ Hin) | exact Hf].
  - destruct a as [| x [| x' a']].
    + destruct b as [| y [| y' b']]; try discriminate.
      simpl in H. inversion H; subst. destruct Hz.
    + destruct (mapM_in _ _ l z H Hz) as [y [Hin Hf]].
      exists x, y. split; [left; reflexivity | split; assumption].
    + destruct b as [| y [| y' b']]; try discriminate.
      destruct (mapM_in _ _ l z H Hz) as [x0 [Hin Hf]].
      exists x0, y. split; [exact Hin | split; [left; reflexivity | exact Hf]].
Qed.

Lemma mean_nonneg (l : list R) : 0 <= rsum l -> 0 <= rsum l / INR (length l).
Proof.
  intros H. unfold Rdiv. apply Rmult_le_pos; [exact H |].
  destruct (length l) as [| n].
  - simpl. rewrite Rinv_0. lra.
  - left. apply Rinv_0_lt_compat. apply lt_0_INR. lia.
Qed.

Lemma pair_loss_nonneg (q s : mat) (v : R) :
  (forall row x, In row q -> In x row -> 0 <= x) ->
  pair_loss q s = Some v -> 0 <= v.
Proof.
  intros Hq H. unfold pair_loss in H.
  destruct (mop (fun a b => - a * b) q (map log_softmax s)) as [prod |] eqn:Hp;
    simpl in H; [| discriminate].
  inversion H; subst. apply mean_nonneg. apply rsum_nonneg.
  intros t Ht. apply in_map_iff in Ht. destruct Ht as [prow [Ht Hprow]]. subst t.
  destruct (bcast_in _ _ _ _ prow Hp Hprow) as [rq [rl [Hrq [Hrl Hv]]]].
  apply rsum_nonneg. intros z Hz.
  destruct (bcast_in _ _ _ _ z Hv Hz) as [a [b [Ha [Hb Hab]]]].
  inversion Hab; subst.
  apply in_map_iff in Hrl. destruct Hrl as [srow [Hsrow _]]. subst rl.
  pose proof (Hq rq a Hrq Ha). pose proof (log_softmax_nonpos srow b Hb). nra.
Qed.

Lemma inner_step_nonneg (iq : nat) (q : mat) (student_out : list mat)
    (acc : option (R * nat)) (v : nat) :
  (forall row x, In row q -> In x row -> 0 <= x) ->
  total_nonneg acc -> total_nonneg (inner_step iq q student_out acc v).
Proof.
  intros Hq Hacc. unfold inner_step. destruct acc as [[tot n] |]; simpl; [| exact I].
  destruct (v =? iq)%nat; [exact Hacc |].
  destruct (nth_error student_out v) as [s |]; simpl; [| exact I].
  destruct (pair_loss q s) as [l |] eqn:Hl; simpl; [| exact I].
  pose proof (pair_loss_nonneg q s l Hq Hl). simpl in Hacc. lra.
Qed.

Lemma loss_loops_nonneg (teacher_out student_out : list mat) :
  (forall q row x, In q teacher_out -> In row q -> In x row -> 0 <= x) ->
  total_nonneg (loss_loops teacher_out student_out).
Proof.
  intros Hq. unfold loss_loops.
  assert (Hgen : forall (l : list (nat * mat)) (acc : option (R * nat)),
             (forall p, In p l -> In (snd p) teacher_out) ->
             total_nonneg acc ->
             total_nonneg
               (fold_left
                  (fun acc iqq =>
                     fold_left (inner_step (fst iqq) (snd iqq) student_out)
                               (seq 0 (length student_out)) acc)
                  l acc)).
  { induction l as [| p l IH]; intros acc Hl Hacc; [exact Hacc |].
    cbn [fold_left]. apply IH; [intros p' Hp'; apply Hl; right; exact Hp' |].
    assert (Hin : forall (vs : list nat) (a : option (R * nat)),
               total_nonneg a ->
               total_nonneg
                 (fold_left (inner_step (fst p) (snd p) student_out) vs a)).
    { induction vs as [| v vs IHv]; intros a Ha; [exact Ha |].
      cbn [fold_left]. apply IHv. apply inner_step_nonneg; [| exact Ha].
      intros row x. apply Hq. apply Hl. left. reflexivity. }
    apply Hin. exact Hacc. }
  apply Hgen.
  - intros [iq q] Hp. apply (in_combine_r _ _ _ _ Hp).
  - simpl. lra.
Qed.

Lemma split_size_in {A : Type} (k : nat) (fuel : nat) :
  forall (l c : list A) (r : A),
    In c (split_size fuel k l) -> In r c -> In r l.
Proof.
  induction fuel as [| fuel IH]; intros l c r Hc Hr; [destruct Hc |].
  destruct l as [| a l']; [destruct Hc |].
  cbn [split_size] in Hc. destruct Hc as [Hc | Hc].
  - subst c. rewrite <- (firstn_skipn k (a :: l')). apply in_or_app. left. exact Hr.
  - rewrite <- (firstn_skipn k (a :: l')). apply in_or_app. right.
    apply (IH _ c r Hc Hr).
Qed.

Lemma chunk_in {A : Type} (n : nat) (l : list A) (cs : list (list A))
    (c : list A) (r : A) :
  chunk n l = Some cs -> In c cs -> In r c -> In r l.
Proof.
  unfold chunk. intros H Hc Hr.
  destruct (n =? 0)%nat; [discriminate |].
  destruct (length l =? 0)%nat.
  - inversion H; subst. apply repeat_spec in Hc. subst c. destruct Hr.
  - inversion H; subst. apply (split_size_in _ _ l c r Hc Hr).
Qed.

(** X11. Whenever [forward] returns, the loss it returns is not negative. *)
Theorem forward_loss_nonneg (st : DINOLoss) (peers : list mat)
    (student_output teacher_output : tensor) (epoch : nat)
    (loss : R) (st' : DINOLoss) :
  forward st peers student_output teacher_output epoch = Some (loss, st') ->
  0 <= loss.
Proof.
  unfold forward. intros H.
  destruct (chunk (ncrops st) _) as [sc |]; simpl in H; [| discriminate].
  destruct (nth_error (teacher_temp_schedule st) epoch) as [temp |]; simpl in H;
    [| discriminate].
  destruct (mop Rminus _ _) as [centered |]; simpl in H; [| discriminate].
  destruct (chunk 2 _) as [tc |] eqn:Htc; simpl in H; [| discriminate].
  pose proof (loss_loops_nonneg tc sc) as Hnn.
  destruct (loss_loops tc sc) as [[tot n] |]; simpl in H; [| discriminate].
  destruct (n =? 0)%nat eqn:En; [discriminate |].
  destruct (update_center st teacher_output peers); simpl in H; [| discriminate].
  inversion H; subst.
  unfold Rdiv. apply Rmult_le_pos.
  - apply Hnn. intros q row x Hq Hrow Hx.
    pose proof (chunk_in 2 _ tc q row Htc Hq Hrow) as Hin.
    apply in_map_iff in Hin. destruct Hin as [r [Hr _]]. subst row.
    left. apply (softmax_positive r x Hx).
  - left. apply Rinv_0_lt_compat. apply lt_0_INR. apply Nat.eqb_neq in En. lia.
Qed.

End LossSign.

Section TeacherTargets.
Import Loss.

Lemma demo_teacher_targets :
  exists tc,
    teacher_targets demo_loss demo_teacher 0 = Some tc
    /\ Forall (Forall (fun row : vec => row <> [])) tc.
Proof.
  eexists. split.
  - unfold teacher_targets, demo_loss, demo_teacher.
    cbn -[Rplus Rminus Rmult Rdiv Rinv exp ln INR Ropp]. reflexivity.
  - repeat constructor; discriminate.
Qed.

(** X10. [forward] takes its targets from the teacher side computed first
    (temperature of the epoch, centre subtracted, softmax, two chunks), and
    every target row with at least one column is a probability distribution:
    no entry is negative and the entries sum to 1. *)
Theorem teacher_targets_distribution (st : DINOLoss) (peers : list mat)
    (student_output teacher_output : tensor) (epoch : nat) :
  forward st peers student_output teacher_output epoch
  = (student_out <- chunk (ncrops st)
                          (divide (rows student_output) (student_temp st)) ;;
     teacher_out <- teacher_targets st teacher_output epoch ;;
     tn <- loss_loops teacher_out student_out ;;
     if (snd tn =? 0)%nat then None
     else
       st' <- update_center st teacher_output peers ;;
       Some (fst tn / INR (snd tn), st'))
  /\ (forall (tc : list mat) (q : mat) (row : vec),
        teacher_targets st teacher_output epoch = Some tc ->
        In q tc -> In row q -> row <> [] ->
        rsum row = 1 /\ Forall (fun p => 0 <= p) row).
Proof.
  split.
  - unfold forward, teacher_targets.
    destruct (chunk (ncrops st) _) as [sc |]; [| reflexivity]. cbn [bind].
    destruct (nth_error (teacher_temp_schedule st) epoch) as [temp |];
      [| reflexivity]. cbn [bind].
    destruct (mop Rminus _ _) as [centered |]; [| reflexivity]. cbn [bind].
    reflexivity.
  - intros tc q row Htc Hq Hrow Hne. unfold teacher_targets in Htc.
    destruct (nth_error (teacher_temp_schedule st) epoch) as [temp |];
      simpl in Htc; [| discriminate].
    destruct (mop Rminus _ _) as [centered |]; simpl in Htc; [| discriminate].
    pose proof (chunk_in 2 _ tc q row Htc Hq Hrow) as Hin.
    apply in_map_iff in Hin. destruct Hin as [r [Hr _]]. subst row. split.
    + apply softmax_sums_to_one. intros E. apply Hne. rewrite E. reflexivity.
    + apply Forall_forall. intros p Hp. left. apply (softmax_positive r p Hp).
Qed.

Lemma teacher_targets_distribution_witness :
  exists tc,
    teacher_targets demo_loss demo_teacher 0 = Some tc
    /\ Forall (Forall (fun row => rsum row = 1 /\ Forall (fun p => 0 <= p) row)) tc.
Proof.
  destruct demo_teacher_targets as [tc [Htc Hne]].
  exists tc. split; [exact Htc |].
  apply Forall_forall. intros q Hq. apply Forall_forall. intros row Hrow.
  apply (proj2 (teacher_targets_distribution demo_loss demo_peers demo_student
                  demo_teacher 0) tc q row Htc Hq Hrow).
  apply (proj1 (Forall_forall _ q) (proj1 (Forall_forall _ tc) Hne q Hq) row Hrow).
Defined.

End TeacherTargets.

Section LossSignDemo.
Import Loss.

Lemma demo_forward_returns :
  exists r, forward demo_loss demo_peers demo_student demo_teacher 0 = Some r.
Proof.
  eexists. unfold forward, demo_loss, demo_peers, demo_student, demo_teacher.
  cbn -[Rplus Rminus Rmult Rdiv Rinv exp ln INR Ropp]. reflexivity.
Qed.

Lemma forward_loss_nonneg_witness :
  exists loss st',
    forward demo_loss demo_peers demo_student demo_teacher 0 = Some (loss, st')
    /\ 0 <= loss.
Proof.
  destruct demo_forward_returns as [[loss st'] H].
  exists loss, st'. split; [exact H |].
  apply (forward_loss_nonneg demo_loss demo_peers demo_student demo_teacher 0
           loss st' H).
Defined.

End LossSignDemo.

Section CenterOverTime.
Import Loss.

Lemma update_center_step (st : DINOLoss) (teacher_output : tensor)
    (peers : list mat) (d : nat) (c : vec) :
  center st = [c] ->
  length c = d ->
  rows teacher_output <> [] ->
  Forall (fun r => length r = d) (rows teacher_output) ->
  Forall (fun p => exists pv, p = [pv] /\ length pv = d) peers ->
  exists (st' : DINOLoss) (row : vec),
    update_center st teacher_output peers = Some st'
    /\ center st' = [row]
    /\ center_momentum st' = center_momentum st
    /\ length row = d
    /\ forall j, (j < d)%nat ->
         nth j row 0
         = nth j c 0 * center_momentum st
           + batch_center_entry j teacher_output peers * (1 - center_momentum st).
Proof.
  intros Hc Hlen Hne Hrect Hpeers.
  destruct (colsum_entries d (rows teacher_output) Hne Hrect) as [Hsl Hsn].
  destruct (all_reduce_rows d peers (colsum (rows teacher_output)) Hsl Hpeers)
    as [w [Hw [Hwl Hwn]]].
  unfold batch_center_entry.
  set (n := length (rows teacher_output)) in *.
  set (W := get_world_size peers) in *.
  set (bc := map (fun x => x / INR n) (map (fun x => x / INR (n * W)) w)).
  set (row := map2 Rplus (map (fun x => x * center_momentum st) c)
                         (map (fun x => x * (1 - center_momentum st)) bc)).
  assert (Hbl : length bc = d) by (unfold bc; rewrite !length_map; exact Hwl).
  eexists. exists row. split.
  - unfold update_center, sum_dim0. rewrite Hw. cbn [bind].
    rewrite Hc. unfold scale, divide. cbn [map].
    unfold mop, bcast. cbn [length Nat.eqb combine mapM fst snd bind].
    fold n W. fold bc.
    rewrite vop_same by (rewrite !length_map; congruence).
    cbn [bind]. reflexivity.
  - cbn [center center_momentum]. split; [reflexivity |]. split; [reflexivity |].
    split.
    + unfold row. rewrite length_map2; rewrite !length_map; congruence.
    + intros j Hj. unfold row.
      rewrite nth_map2 by (rewrite !length_map; congruence || lia).
      rewrite (nth_map_lt (fun x => x * center_momentum st) c j 0) by lia.
      rewrite (nth_map_lt (fun x => x * (1 - center_momentum st)) bc j 0) by lia.
      unfold bc.
      rewrite (nth_map_lt (fun x => x / INR n) _ j 0) by (rewrite length_map; lia).
      rewrite (nth_map_lt (fun x => x / INR (n * W)) w j 0) by lia.
      rewrite (Hwn j Hj), (Hsn j Hj).
      rewrite mult_INR.
      assert (Hn : INR n <> 0).
      { apply not_0_INR. unfold n. destruct (rows teacher_output); simpl; congruence. }
      assert (HW : INR W <> 0) by (apply not_0_INR; unfold W, get_world_size; lia).
      field. split; assumption.
Qed.

(** X12. Calling [update_center] k times on the same teacher output (and the
    same contributions of the other processes) moves every entry of the centre
    geometrically towards the batch centre as the code scales it: the
    distance to it is multiplied by the momentum at every call. *)
Theorem update_center_converges (k : nat) (teacher_output : tensor)
    (peers : list mat) (d : nat) :
  rows teacher_output <> [] ->
  Forall (fun r => length r = d) (rows teacher_output) ->
  Forall (fun p => exists pv, p = [pv] /\ length pv = d) peers ->
  forall (st : DINOLoss) (c : vec),
    center st = [c] ->
    length c = d ->
    exists (st' : DINOLoss) (row : vec),
      update_center_times k st teacher_output peers = Some st'
      /\ center st' = [row]
      /\ length row = d
      /\ forall j, (j < d)%nat ->
           nth j row 0 - batch_center_entry j teacher_output peers
           = center_momentum st ^ k
             * (nth j c 0 - batch_center_entry j teacher_output peers).
Proof.
  intros Hne Hrect Hpeers. induction k as [| k IH]; intros st c Hc Hlen.
  - exists st, c. split; [reflexivity |]. split; [exact Hc |]. split; [exact Hlen |].
    intros j _. simpl. ring.
  - destruct (update_center_step st teacher_output peers d c Hc Hlen Hne Hrect Hpeers)
      as [st1 [row1 [Hu [Hc1 [Hm1 [Hl1 Hn1]]]]]].
    destruct (IH st1 row1 Hc1 Hl1) as [st' [row [Hk [Hc' [Hl' Hn']]]]].
    exists st', row. split.
    + cbn [update_center_times]. rewrite Hu. cbn [bind]. exact Hk.
    + split; [exact Hc' |]. split; [exact Hl' |]. intros j Hj.
      rewrite (Hn' j Hj), (Hn1 j Hj), Hm1. simpl pow. ring.
Qed.

Lemma update_center_converges_witness :
  exists (st' : DINOLoss) (row : vec),
    update_center_times 3 demo_loss demo_teacher demo_peers = Some st'
    /\ center st' = [row]
    /\ length row = 2%nat
    /\ forall j, (j < 2)%nat ->
         nth j row 0 - batch_center_entry j demo_teacher demo_peers
         = center_momentum demo_loss ^ 3
           * (nth j [0; 0] 0 - batch_center_entry j demo_teacher demo_peers).
Proof.
  apply (update_center_converges 3 demo_teacher demo_peers 2).
  - discriminate.
  - apply demo_rows_ok.
  - apply demo_peers_ok.
  - reflexivity.
  - reflexivity.
Defined.

End CenterOverTime.

Section DegenerateLoss.
Import Loss.

Lemma mapM_length {A B : Type} (f : A -> option B) (l : list A) :
  forall l' : list B, mapM f l = Some l' -> length l' = length l.
Proof.
  induction l as [| x l IH]; intros l' H; simpl in H.
  - inversion H. reflexivity.
  - destruct (f x); simpl in H; [| discriminate].
    destruct (mapM f l) as [ys |]; simpl in H; [| discriminate].
    inversion H. simpl. rewrite (IH ys eq_refl). reflexivity.
Qed.

Lemma split_size_nil {A : Type} (fuel k : nat) : @split_size A fuel k [] = [].
Proof. destruct fuel; reflexivity. Qed.

Lemma chunk_one {A : Type} (l : list A) : exists c, chunk 1 l = Some [c].
Proof.
  unfold chunk. cbn [Nat.eqb].
  destruct (length l =? 0)%nat eqn:E; [exists []; reflexivity |].
  replace ((length l + 1 - 1) / 1)%nat with (length l)
    by (rewrite Nat.div_1_r; lia).
  destruct l as [| a l']; [discriminate |].
  exists (a :: l').
  set (l := a :: l'). change (length l) with (S (length l')) at 1.
  unfold l at 2. cbn [split_size]. fold l.
  rewrite firstn_all, skipn_all, split_size_nil. reflexivity.
Qed.

Lemma chunk_two_single {A : Type} (x : A) : chunk 2 [x] = Some [[x]].
Proof. reflexivity. Qed.

(** X13. With a single crop on the student side (ncrops = 1) and a single row
    of teacher output there is no pair of different views: [forward] raises
    (division by zero terms) and returns no loss. *)
Theorem forward_without_pairs (st : DINOLoss) (peers : list mat)
    (student_output teacher_output : tensor) (epoch : nat) :
  ncrops st = 1%nat ->
  length (center st) = 1%nat ->
  length (rows teacher_output) = 1%nat ->
  forward st peers student_output teacher_output epoch = None.
Proof.
  intros HN Hc Ht. unfold forward. rewrite HN.
  destruct (chunk_one (divide (rows student_output) (student_temp st))) as [sc Hsc].
  rewrite Hsc. cbn [bind].
  destruct (nth_error (teacher_temp_schedule st) epoch) as [temp |]; [| reflexivity].
  cbn [bind].
  destruct (mop Rminus (rows teacher_output) (center st)) as [centered |] eqn:Hm;
    [| reflexivity].
  cbn [bind].
  assert (Hlen : length centered = 1%nat).
  { unfold mop, bcast in Hm. rewrite Ht, Hc in Hm. cbn [Nat.eqb] in Hm.
    apply mapM_length in Hm. rewrite Hm, length_combine, Ht, Hc. reflexivity. }
  destruct centered as [| r [| r' rest]]; try discriminate.
  cbn [divide map]. rewrite chunk_two_single. cbn [bind].
  unfold loss_loops. cbn [length seq combine fold_left].
  unfold inner_step. cbn [bind Nat.eqb fst snd]. reflexivity.
Qed.

Lemma forward_without_pairs_witness :
  forward {| student_temp := 1 / 10;
             center_momentum := 9 / 10;
             ncrops := 1;
             center := [[0; 0]];
             center_requires_grad := false;
             teacher_temp_schedule := [4 / 100] |}
          []
          {| rows := [[1; 2]]; requires_grad := true |}
          {| rows := [[2; 1]]; requires_grad := false |}
          0
  = None.
Proof.
  apply forward_without_pairs; reflexivity.
Defined.

End DegenerateLoss.

(** ** The multi-crop wrapper, whatever the backbone *)

Section GroupFacts.
Import MultiCrop.

Variables sample feature aux : Type.
Variable backbone : crop sample -> backbone_out feature aux.
Variable head : list feature -> list (list R).

Let gb (g : list (crop sample)) : list feature := primary (backbone (merged g)).

Lemma forward_loop_groups (n : nat) :
  forall (x pre : list (crop sample)) (out : list feature),
    (length x <= n)%nat ->
    forward_loop backbone (pre ++ x)
      (cumsum_from (length pre) (unique_consecutive_counts (map crop_len x)))
      (length pre) out
    = Some (out ++ flat_map gb (groups_fuel n x))
    /\ concat (groups_fuel n x) = x
    /\ Forall (fun g => g <> [] /\ forall c, In c g -> crop_len c = crop_len (merged g))
              (groups_fuel n x).
Proof.
  induction n as [| n IH]; intros x pre out Hlen.
  - destruct x; [| simpl in Hlen; lia]. simpl. rewrite app_nil_r.
    split; [reflexivity | split; [reflexivity | constructor]].
  - destruct x as [| c t].
    { simpl. rewrite app_nil_r. split; [reflexivity | split; [reflexivity | constructor]]. }
    cbn [groups_fuel].
    set (k := take_run (crop_len c) (map crop_len t)).
    assert (Hk : (k <= length t)%nat).
    { unfold k. pose proof (take_run_le (crop_len c) (map crop_len t)) as H.
      rewrite length_map in H. exact H. }
    assert (Hsame : forall d, In d (firstn k t) -> crop_len d = crop_len c).
    { intros d Hd. apply (take_run_all (crop_len c) (map crop_len t)).
      fold k. rewrite firstn_map. apply in_map. exact Hd. }
    destruct (IH (skipn k t) (pre ++ c :: firstn k t) (out ++ gb (c :: firstn k t)))
      as [Hloop [Hcat Hall]].
    { rewrite length_skipn. simpl in Hlen. lia. }
    split; [| split].
    + simpl map. unfold unique_consecutive_counts. rewrite run_counts_spec. fold k.
      simpl cumsum_from. simpl forward_loop.
      rewrite slice_after_prefix. simpl firstn.
      rewrite (cat_group sample c (firstn k t) Hsame).
      rewrite skipn_map.
      replace (pre ++ c :: t) with ((pre ++ c :: firstn k t) ++ skipn k t).
      2:{ rewrite <- app_assoc. simpl. rewrite firstn_skipn. reflexivity. }
      replace (length pre + S k)%nat with (length (pre ++ c :: firstn k t)).
      2:{ rewrite length_app. simpl. rewrite firstn_length_le by exact Hk. lia. }
      change (primary (backbone {| crop_len := crop_len c;
                                   crop_rows := flat_map crop_rows (c :: firstn k t) |}))
        with (gb (c :: firstn k t)).
      rewrite Hloop. cbn [flat_map]. rewrite app_assoc. reflexivity.
    + cbn [concat]. rewrite Hcat. simpl. rewrite firstn_skipn. reflexivity.
    + constructor; [| exact Hall]. split; [discriminate |].
      intros d [Hd | Hd]; [subst d; reflexivity | apply Hsame; exact Hd].
Qed.

Lemma groups_single_run (c : crop sample) (t : list (crop sample)) :
  (forall d, In d t -> crop_len d = crop_len c) ->
  groups (c :: t) = [c :: t].
Proof.
  intros Hsame. unfold groups. cbn [length groups_fuel].
  assert (Hk : take_run (crop_len c) (map crop_len t) = length t).
  { clear - Hsame. induction t as [| d t IH]; [reflexivity |].
    simpl. rewrite (Hsame d (or_introl eq_refl)), Nat.eqb_refl.
    rewrite IH; [reflexivity | intros e He; apply Hsame; right; exact He]. }
  rewrite Hk, firstn_all, skipn_all. destruct (length t); reflexivity.
Qed.

(** X14. On every non-empty crop list, and whatever the backbone does, the
    wrapper calls the backbone once per run of consecutive same-length crops,
    on the run's crops concatenated, and gives the head the results in order;
    the runs are non-empty, of one length each, and together they are the
    input list, so no crop is dropped or repeated.  When all crops share one
    length there is one run: the backbone is called once on everything. *)
Theorem multicrop_forward_by_runs (x : list (crop sample)) :
  x <> [] ->
  forward backbone head (CropList x)
  = Some (head (flat_map (fun g => primary (backbone (merged g))) (groups x)))
  /\ concat (groups x) = x
  /\ Forall (fun g => g <> [] /\ forall c, In c g -> crop_len c = crop_len (merged g))
            (groups x)
  /\ ((forall c d, In c x -> In d x -> crop_len c = crop_len d) -> groups x = [x]).
Proof.
  intros Hx.
  destruct (forward_loop_groups (length x) x [] [] (le_n _)) as [Hloop [Hcat Hall]].
  split; [| split; [exact Hcat | split; [exact Hall |]]].
  - unfold forward, cumsum. destruct x as [| c t]; [congruence |].
    change (forward_loop backbone (c :: t)
              (cumsum_from 0 (unique_consecutive_counts (map crop_len (c :: t)))) 0 []
            = Some (flat_map gb (groups (c :: t)))) in Hloop.
    rewrite Hloop. reflexivity.
  - intros Hsame. destruct x as [| c t]; [congruence |].
    apply groups_single_run. intros d Hd.
    apply Hsame; [right; exact Hd | left; reflexivity].
Qed.

End GroupFacts.

Section GroupDemo.
Import MultiCrop.

Lemma multicrop_forward_by_runs_witness :
  forward demo_backbone demo_head (CropList demo_crops)
  = Some (demo_head (flat_map (fun g => primary (demo_backbone (merged g)))
                              (groups demo_crops)))
  /\ concat (groups demo_crops) = demo_crops
  /\ Forall (fun g => g <> [] /\ forall c, In c g -> crop_len c = crop_len (merged g))
            (groups demo_crops)
  /\ ((forall c d, In c demo_crops -> In d demo_crops -> crop_len c = crop_len d) ->
      groups demo_crops = [demo_crops]).
Proof.
  apply (multicrop_forward_by_runs nat nat unit demo_backbone demo_head demo_crops).
  unfold demo_crops. discriminate.
Defined.

End GroupDemo.

(** ** The multi-crop wrapper against per-crop invocation *)

Section CoalesceFacts.
Import MultiCrop.

Variable sample : Type.

Lemma merged_single (c : crop sample) : merged [c] = c.
Proof.
  destruct c as [l r]. unfold merged. simpl. rewrite app_nil_r. reflexivity.
Qed.

Lemma coalesce_head (c : crop sample) (t : list (crop sample)) :
  exists d ds, coalesce (c :: t) = d :: ds /\ crop_len d = crop_len c.
Proof.
  cbn [coalesce]. destruct (coalesce t) as [| d ds].
  - exists c, []. split; reflexivity.
  - destruct (crop_len c =? crop_len d)%nat.
    + exists (merge c d), ds. split; reflexivity.
    + exists c, (d :: ds). split; reflexivity.
Qed.

Lemma coalesce_run (t : list (crop sample)) :
  forall c : crop sample,
    coalesce (c :: t)
    = merged (c :: firstn (take_run (crop_len c) (map crop_len t)) t)
        :: coalesce (skipn (take_run (crop_len c) (map crop_len t)) t).
Proof.
  induction t as [| d t IH]; intros c.
  - simpl. rewrite merged_single. reflexivity.
  - cbn [map take_run]. destruct (crop_len d =? crop_len c)%nat eqn:E.
    + apply Nat.eqb_eq in E. cbn [firstn skipn].
      change (coalesce (c :: d :: t))
        with (match coalesce (d :: t) with
              | e :: ds => if (crop_len c =? crop_len e)%nat
                           then merge c e :: ds else c :: e :: ds
              | [] => [c]
              end).
      rewrite (IH d). rewrite E.
      replace (crop_len c =? crop_len (merged (d :: firstn (take_run (crop_len c)
                                                               (map crop_len t)) t)))%nat
        with true by (symmetry; apply Nat.eqb_eq; simpl; congruence).
      reflexivity.
    + apply Nat.eqb_neq in E. cbn [firstn skipn]. rewrite merged_single.
      destruct (coalesce_head d t) as [e [ds [He Hlen]]].
      change (coalesce (c :: d :: t))
        with (match coalesce (d :: t) with
              | e :: ds => if (crop_len c =? crop_len e)%nat
                           then merge c e :: ds else c :: e :: ds
              | [] => [c]
              end).
      rewrite He.
      replace (crop_len c =? crop_len e)%nat with false
        by (symmetry; apply Nat.eqb_neq; congruence).
      reflexivity.
Qed.

Lemma groups_coalesce (n : nat) :
  forall x : list (crop sample),
    (length x <= n)%nat -> map merged (groups_fuel n x) = coalesce x.
Proof.
  induction n as [| n IH]; intros x Hlen.
  - destruct x; [reflexivity | simpl in Hlen; lia].
  - destruct x as [| c t]; [reflexivity |].
    cbn [groups_fuel map]. rewrite IH.
    + symmetry. apply coalesce_run.
    + rewrite length_skipn. simpl in Hlen. lia.
Qed.

Lemma coalesce_rows (x : list (crop sample)) :
  flat_map crop_rows (coalesce x) = flat_map crop_rows x.
Proof.
  induction x as [| c t IH]; [reflexivity |].
  cbn [coalesce]. cbn [flat_map]. rewrite <- IH.
  destruct (coalesce t) as [| d ds]; [reflexivity |].
  destruct (crop_len c =? crop_len d)%nat; simpl; rewrite <- ?app_assoc; reflexivity.
Qed.

Lemma coalesce_prefix (pre y y' : list (crop sample)) :
  coalesce y = coalesce y' -> coalesce (pre ++ y) = coalesce (pre ++ y').
Proof.
  intros H. induction pre as [| c pre IH]; [exact H |].
  simpl. rewrite IH. reflexivity.
Qed.

Lemma merge_assoc (a b d : crop sample) : merge (merge a b) d = merge a (merge b d).
Proof.
  unfold merge. simpl. rewrite app_assoc. reflexivity.
Qed.

Lemma coalesce_merge (a b : crop sample) (rest : list (crop sample)) :
  crop_len a = crop_len b ->
  coalesce (merge a b :: rest) = coalesce (a :: b :: rest).
Proof.
  intros Hab.
  change (coalesce (a :: b :: rest))
    with (match coalesce (b :: rest) with
          | e :: ds => if (crop_len a =? crop_len e)%nat
                       then merge a e :: ds else a :: e :: ds
          | [] => [a]
          end).
  cbn [coalesce]. destruct (coalesce rest) as [| d ds].
  - rewrite Hab, Nat.eqb_refl. reflexivity.
  - simpl crop_len at 1. rewrite Hab.
    destruct (crop_len b =? crop_len d)%nat eqn:E.
    + simpl crop_len. rewrite Nat.eqb_refl, merge_assoc. reflexivity.
    + rewrite Nat.eqb_refl. reflexivity.
Qed.

End CoalesceFacts.

Section PerCropFacts.
Import MultiCrop.

Variables sample feature aux : Type.
Variable backbone : crop sample -> backbone_out feature aux.
Variable head : list feature -> list (list R).

Lemma flat_map_merged (gs : list (list (crop sample))) :
  flat_map (fun g => primary (backbone (merged g))) gs
  = flat_map (fun c => primary (backbone c)) (map merged gs).
Proof.
  induction gs as [| g gs IH]; [reflexivity |]. simpl. rewrite IH. reflexivity.
Qed.

Lemma forward_coalesced (x : list (crop sample)) :
  x <> [] ->
  forward backbone head (CropList x)
  = Some (head (flat_map (fun c => primary (backbone c)) (coalesce x))).
Proof.
  intros Hx.
  destruct (forward_loop_groups sample feature aux backbone (length x) x [] []
              (le_n _)) as [Hloop _].
  rewrite flat_map_merged, (groups_coalesce sample (length x) x (le_n _)) in Hloop.
  unfold forward, cumsum. destruct x as [| c t]; [congruence |].
  change (forward_loop backbone (c :: t)
            (cumsum_from 0 (unique_consecutive_counts (map crop_len (c :: t)))) 0 []
          = Some (flat_map (fun c0 => primary (backbone c0)) (coalesce (c :: t))))
    in Hloop.
  rewrite Hloop. reflexivity.
Qed.

Lemma flat_map_rows_length (l : list (crop sample)) :
  length (flat_map crop_rows l) = list_sum (map (fun c => length (crop_rows c)) l).
Proof.
  induction l as [| c l IH]; [reflexivity |].
  simpl. rewrite length_app, IH. reflexivity.
Qed.

Lemma features_length (l : list (crop sample)) :
  (forall c, length (primary (backbone c)) = length (crop_rows c)) ->
  length (flat_map (fun c => primary (backbone c)) l) = length (flat_map crop_rows l).
Proof.
  intros Hrows. induction l as [| c l IH]; [reflexivity |].
  simpl. rewrite !length_app, IH, Hrows. reflexivity.
Qed.

(** C3, amended. On every non-empty crop list the wrapper returns the head
    applied to the backbone's results on the runs of consecutive same-length
    crops, each run joined into one tensor, in order; the batch rows so fed are
    the input's rows in input order; with a backbone that returns one feature
    row per batch row and a head that keeps the row count, the output has as
    many rows as the crops have batch rows in total; the output is the same
    whether two adjacent same-length crops are passed separately or as one
    merged tensor, whatever the backbone; and it is the output of per-crop
    invocation when the backbone treats batch rows independently. *)
Theorem multicrop_forward_merged_runs (x : list (crop sample)) :
  x <> [] ->
  forward backbone head (CropList x)
  = Some (head (flat_map (fun c => primary (backbone c)) (coalesce x)))
  /\ flat_map crop_rows (coalesce x) = flat_map crop_rows x
  /\ ((forall c, length (primary (backbone c)) = length (crop_rows c)) ->
      (forall f, length (head f) = length f) ->
      exists out,
        forward backbone head (CropList x) = Some out
        /\ length out = list_sum (map (fun c => length (crop_rows c)) x))
  /\ (forall (a b : crop sample) (pre rest : list (crop sample)),
        x = pre ++ a :: b :: rest ->
        crop_len a = crop_len b ->
        forward backbone head (CropList (pre ++ merge a b :: rest))
        = forward backbone head (CropList x))
  /\ ((forall a b : crop sample,
         crop_len a = crop_len b ->
         primary (backbone (merge a b)) = primary (backbone a) ++ primary (backbone b)) ->
      forward backbone head (CropList x) = Some (per_crop backbone head x)).
Proof.
  intros Hx. split; [apply forward_coalesced; exact Hx |].
  split; [apply coalesce_rows |]. split; [| split].
  - intros Hrows Hhead. eexists. split; [apply forward_coalesced; exact Hx |].
    rewrite Hhead, (features_length _ Hrows), coalesce_rows.
    apply flat_map_rows_length.
  - intros a b pre rest Hsplit Hab.
    rewrite (forward_coalesced x Hx).
    rewrite forward_coalesced by (destruct pre; discriminate).
    subst x.
    rewrite (coalesce_prefix sample pre (merge a b :: rest) (a :: b :: rest)
               (coalesce_merge sample a b rest Hab)).
    reflexivity.
  - intros Hmerge. apply (forward_list sample feature aux backbone head Hmerge x Hx).
Qed.

End PerCropFacts.

Section PerCropDemo.
Import MultiCrop.

(** C3, as stated, fails: with a backbone whose rows depend on the batch they
    come in (it still returns one feature row per batch row), two same-length
    crops run as one merged batch give other rows than the two crops run one by
    one. *)
Lemma multicrop_batch_dependent_backbone :
  forward batch_backbone demo_head (CropList twin_crops) = Some [[INR 3]; [INR 5]]
  /\ per_crop batch_backbone demo_head twin_crops = [[INR 2]; [INR 4]]
  /\ forward batch_backbone demo_head (CropList twin_crops)
     <> Some (per_crop batch_backbone demo_head twin_crops)
  /\ (forall c, length (primary (batch_backbone c)) = length (crop_rows c)).
Proof.
  assert (Hf : forward batch_backbone demo_head (CropList twin_crops)
               = Some [[INR 3]; [INR 5]]) by reflexivity.
  assert (Hp : per_crop batch_backbone demo_head twin_crops = [[INR 2]; [INR 4]])
    by reflexivity.
  split; [exact Hf |]. split; [exact Hp |]. split.
  - rewrite Hf, Hp. intros H.
    assert (H3 : INR 3 = INR 2) by congruence.
    apply INR_eq in H3. discriminate.
  - intros c. unfold batch_backbone. simpl. apply length_map.
Qed.

(** Three crops, the first two of one length, through the batch-dependent
    backbone. *)
Lemma multicrop_forward_merged_runs_witness :
  forward batch_backbone demo_head (CropList demo_crops)
  = Some (demo_head (flat_map (fun c => primary (batch_backbone c))
                              (coalesce demo_crops)))
  /\ flat_map crop_rows (coalesce demo_crops) = flat_map crop_rows demo_crops
  /\ ((forall c, length (primary (batch_backbone c)) = length (crop_rows c)) ->
      (forall f, length (demo_head f) = length f) ->
      exists out,
        forward batch_backbone demo_head (CropList demo_crops) = Some out
        /\ length out = list_sum (map (fun c => length (crop_rows c)) demo_crops))
  /\ (forall (a b : crop nat) (pre rest : list (crop nat)),
        demo_crops = pre ++ a :: b :: rest ->
        crop_len a = crop_len b ->
        forward batch_backbone demo_head (CropList (pre ++ merge a b :: rest))
        = forward batch_backbone demo_head (CropList demo_crops))
  /\ ((forall a b : crop nat,
         crop_len a = crop_len b ->
         primary (batch_backbone (merge a b))
         = primary (batch_backbone a) ++ primary (batch_backbone b)) ->
      forward batch_backbone demo_head (CropList demo_crops)
      = Some (per_crop batch_backbone demo_head demo_crops)).
Proof.
  apply (multicrop_forward_merged_runs nat nat unit batch_backbone demo_head demo_crops).
  unfold demo_crops. discriminate.
Defined.

End PerCropDemo.

(** ** The training loop and its checkpoint bookkeeping *)

Section BookFacts.
Import Loss Train.

Variables batch carried : Type.
Variable learn :
  nat -> R -> R -> R -> list R -> list R -> carried -> batch -> R * list R * carried.
Variable dataloader : nat -> nat -> batch.
Variables lr_schedule wd_schedule teacher_temp_schedule : list R.

Lemma train_step_book (steps epoch batch_idx : nat) (st st' : state carried)
    (loss : R) :
  train_step learn steps dataloader lr_schedule wd_schedule teacher_temp_schedule
             epoch st batch_idx = Some (st', loss) ->
  book st' = book st.
Proof.
  unfold train_step. intros H.
  destruct (nth_error lr_schedule _) as [lr' |]; simpl in H; [| discriminate].
  destruct (nth_error wd_schedule _) as [wd' |]; simpl in H; [| discriminate].
  destruct (nth_error teacher_temp_schedule epoch) as [temp |]; simpl in H;
    [| discriminate].
  destruct (learn epoch lr' wd' temp (student st) (teacher st) (extra st)
                  (dataloader epoch batch_idx)) as [[l s'] x'].
  inversion H; subst. reflexivity.
Qed.

Lemma batch_loop_book (steps epoch : nat) (idxs : list nat) :
  forall (st : state carried) (train_loss : R) (r : state carried * R),
    batch_loop learn steps dataloader lr_schedule wd_schedule teacher_temp_schedule
               epoch idxs st train_loss = Some r ->
    book (fst r) = book st.
Proof.
  induction idxs as [| b idxs IH]; intros st tl r H.
  - simpl in H. inversion H; subst. reflexivity.
  - cbn [batch_loop] in H.
    destruct (train_step _ _ _ _ _ _ epoch st b) as [[st1 l1] |] eqn:Hs;
      simpl in H; [| discriminate].
    rewrite (IH st1 (tl + l1) r H).
    apply (train_step_book steps epoch b st st1 l1 Hs).
Qed.

Lemma batch_loop_sum (steps epoch : nat) (idxs : list nat) :
  forall (st : state carried) (train_loss : R) (r : state carried * R),
    batch_loop learn steps dataloader lr_schedule wd_schedule teacher_temp_schedule
               epoch idxs st train_loss = Some r ->
    snd r
    = train_loss
      + rsum (step_losses learn steps dataloader lr_schedule wd_schedule
                          teacher_temp_schedule epoch idxs st).
Proof.
  induction idxs as [| b idxs IH]; intros st tl r H.
  - simpl in H. inversion H; subst. simpl. ring.
  - cbn [batch_loop step_losses] in *.
    destruct (train_step _ _ _ _ _ _ epoch st b) as [[st1 l1] |] eqn:Hs;
      simpl in H; [| discriminate].
    rewrite (IH st1 (tl + l1) r H). unfold rsum. cbn [fst snd fold_right]. ring.
Qed.

Lemma train_epoch_book (steps epoch : nat) (st st' : state carried) :
  train_epoch learn steps dataloader lr_schedule wd_schedule teacher_temp_schedule
              epoch st = Some st' ->
  book st'
  = epoch_end epoch
      (epoch_mean learn steps dataloader lr_schedule wd_schedule
                  teacher_temp_schedule epoch st)
      (book st).
Proof.
  unfold train_epoch, epoch_mean. intros H.
  destruct (batch_loop _ _ _ _ _ _ epoch (seq 0 steps) st 0) as [r |] eqn:Hb;
    simpl in H; [| discriminate].
  pose proof (batch_loop_sum steps epoch (seq 0 steps) st 0 r Hb) as Hsum.
  pose proof (batch_loop_book steps epoch (seq 0 steps) st 0 r Hb) as Hbook.
  destruct steps as [| k]; [discriminate |].
  inversion H; subst. cbn [book].
  rewrite Hbook, Hsum, Nat.add_1_r, Rplus_0_l. reflexivity.
Qed.

(** X15. The checkpoint bookkeeping of the loop after any number of completed
    epochs is what the end-of-epoch rule computes from the epochs' mean losses,
    the mean of an epoch being the sum of its step losses over the number of
    batches; the training steps in between never touch it. *)
Theorem run_book_is_track (steps : nat) :
  (forall (k start : nat) (st st' : state carried),
     run_epochs learn steps dataloader lr_schedule wd_schedule
                teacher_temp_schedule (seq start k) st = Some st' ->
     length (epoch_means learn steps dataloader lr_schedule wd_schedule
                         teacher_temp_schedule (seq start k) st) = k
     /\ book st'
        = track_from start
            (epoch_means learn steps dataloader lr_schedule wd_schedule
                         teacher_temp_schedule (seq start k) st)
            (book st))
  /\ (forall (k : nat) (student0 : list R) (extra0 : carried) (st' : state carried),
        run_epochs learn steps dataloader lr_schedule wd_schedule
                   teacher_temp_schedule (epoch_range k)
                   (init_state student0 extra0) = Some st' ->
        book st'
        = track (epoch_means learn steps dataloader lr_schedule wd_schedule
                             teacher_temp_schedule (epoch_range k)
                             (init_state student0 extra0)))
  /\ (forall epoch batch_idx (st st' : state carried) loss,
        train_step learn steps dataloader lr_schedule wd_schedule
                   teacher_temp_schedule epoch st batch_idx = Some (st', loss) ->
        book st' = book st).
Proof.
  assert (Hgen : forall (k start : nat) (st st' : state carried),
             run_epochs learn steps dataloader lr_schedule wd_schedule
                        teacher_temp_schedule (seq start k) st = Some st' ->
             length (epoch_means learn steps dataloader lr_schedule wd_schedule
                                 teacher_temp_schedule (seq start k) st) = k
             /\ book st'
                = track_from start
                    (epoch_means learn steps dataloader lr_schedule wd_schedule
                                 teacher_temp_schedule (seq start k) st)
                    (book st)).
  { induction k as [| k IH]; intros start st st' H.
    - simpl in H. inversion H; subst. split; reflexivity.
    - cbn [seq run_epochs epoch_means] in *.
      destruct (train_epoch _ _ _ _ _ _ start st) as [st1 |] eqn:He; simpl in H;
        [| discriminate].
      destruct (IH (S start) st1 st' H) as [Hl Hb].
      split; [simpl; rewrite Hl; reflexivity |].
      cbn [track_from]. rewrite <- (train_epoch_book steps start st st1 He).
      exact Hb. }
  split; [exact Hgen |]. split.
  - intros k student0 extra0 st' H. unfold epoch_range in *.
    apply (Hgen k 1%nat _ st' H).
  - intros epoch batch_idx st st' loss H.
    apply (train_step_book steps epoch batch_idx st st' loss H).
Qed.

End BookFacts.

Section BookDemo.
Import Train.

(** The first two of three epochs, two steps each, every step with loss 12:
    both means are 12 and nothing is saved. *)
Lemma run_book_is_track_witness :
  exists st' : state unit,
    run_epochs demo_learn 2 demo_dataloader demo_lr_schedule demo_wd_schedule
               demo_temp_schedule (epoch_range 2) (init_state [1; 2] tt) = Some st'
    /\ book st'
       = track (epoch_means demo_learn 2 demo_dataloader demo_lr_schedule
                            demo_wd_schedule demo_temp_schedule (epoch_range 2)
                            (init_state [1; 2] tt)).
Proof.
  destruct (run_epochs_in_bounds unit unit demo_learn demo_dataloader
              demo_lr_schedule demo_wd_schedule demo_temp_schedule 2 3
              (epoch_range 2)) with (st := init_state [1; 2] tt) as [st' H].
  - lia.
  - reflexivity.
  - reflexivity.
  - reflexivity.
  - intros e He. unfold epoch_range in He. apply in_seq in He. lia.
  - exists st'. split; [exact H |].
    apply (proj1 (proj2 (run_book_is_track unit unit demo_learn demo_dataloader
                           demo_lr_schedule demo_wd_schedule demo_temp_schedule 2))
             2%nat [1; 2] tt st' H).
Defined.

End BookDemo.
